(** * Nexuschatapp: envelope protocol of [services/cryptoService.ts] and the
    peer/session-key handling of [components/ChatInterface.tsx].

    Data as the browser has it:
    - an [ArrayBuffer] / [Uint8Array] is a list of bytes ([bytes], list of Z
      in [0,256));
    - a JavaScript string is its list of UTF-16 code units ([jsstr]);
    - a JSON value / JWK is a [jsval];
    - WebCrypto operations whose inner workings no claim depends on are the
      fields of a [Platform] record; RSA-PSS signing (the operation named by
      [SIGN_ALGORITHM]) is written out after RFC 8017. *)

From Stdlib Require Import String Ascii ZArith Lia List Bool.
Import ListNotations.
Open Scope Z_scope.
Set Warnings "-register-all".

Definition bytes := list Z.
Definition jsstr := list Z.

Definition is_byte (b : Z) : Prop := 0 <= b < 256.

(** ASCII literal to UTF-16 code units. *)
Fixpoint js (s : string) : jsstr :=
  match s with
  | EmptyString => []
  | String c r => Z.of_nat (nat_of_ascii c) :: js r
  end.

Definition in_range (lo hi b : Z) : bool := (lo <=? b) && (b <=? hi).

(** ** TextEncoder / TextDecoder (WHATWG Encoding, UTF-8) *)

Definition is_high_surrogate (u : Z) : bool := in_range 0xD800 0xDBFF u.
Definition is_low_surrogate (u : Z) : bool := in_range 0xDC00 0xDFFF u.

(** Code points of a JS string; an unpaired surrogate becomes U+FFFD
    ("convert to a scalar value string", used by [TextEncoder.encode]). *)
Fixpoint utf16_scalars (s : jsstr) : list Z :=
  match s with
  | [] => []
  | u :: rest =>
    if is_high_surrogate u then
      match rest with
      | u2 :: rest' =>
        if is_low_surrogate u2
        then (0x10000 + (u - 0xD800) * 0x400 + (u2 - 0xDC00)) :: utf16_scalars rest'
        else 0xFFFD :: utf16_scalars rest
      | [] => [0xFFFD]
      end
    else if is_low_surrogate u then 0xFFFD :: utf16_scalars rest
    else u :: utf16_scalars rest
  end.

(** UTF-8 encoder of one scalar value ([x / 64] is [x >> 6], [x mod 64] is
    [x & 0x3F]). *)
Definition utf8_encode_cp (c : Z) : bytes :=
  if c <? 0x80 then [c]
  else if c <? 0x800 then [0xC0 + c / 64; 0x80 + c mod 64]
  else if c <? 0x10000 then
    [0xE0 + c / 4096; 0x80 + (c / 64) mod 64; 0x80 + c mod 64]
  else [0xF0 + c / 262144; 0x80 + (c / 4096) mod 64;
        0x80 + (c / 64) mod 64; 0x80 + c mod 64].

(** [new TextEncoder().encode(s)] *)
Definition TextEncoder_encode (s : jsstr) : bytes :=
  flat_map utf8_encode_cp (utf16_scalars s).

(** WHATWG UTF-8 decoder with replacement: an ill-formed sequence yields one
    U+FFFD and the offending byte is read again; a truncated sequence at the
    end of the input yields one U+FFFD. *)
Fixpoint utf8_decode (bs : bytes) : list Z :=
  match bs with
  | [] => []
  | b0 :: r0 =>
    if b0 <=? 0x7F then b0 :: utf8_decode r0
    else if in_range 0xC2 0xDF b0 then
      match r0 with
      | [] => [0xFFFD]
      | b1 :: r1 =>
        if in_range 0x80 0xBF b1
        then ((b0 - 0xC0) * 64 + (b1 - 0x80)) :: utf8_decode r1
        else 0xFFFD :: utf8_decode r0
      end
    else if in_range 0xE0 0xEF b0 then
      match r0 with
      | [] => [0xFFFD]
      | b1 :: r1 =>
        if in_range (if b0 =? 0xE0 then 0xA0 else 0x80)
                    (if b0 =? 0xED then 0x9F else 0xBF) b1 then
          match r1 with
          | [] => [0xFFFD]
          | b2 :: r2 =>
            if in_range 0x80 0xBF b2
            then ((b0 - 0xE0) * 4096 + (b1 - 0x80) * 64 + (b2 - 0x80))
                   :: utf8_decode r2
            else 0xFFFD :: utf8_decode r1
          end
        else 0xFFFD :: utf8_decode r0
      end
    else if in_range 0xF0 0xF4 b0 then
      match r0 with
      | [] => [0xFFFD]
      | b1 :: r1 =>
        if in_range (if b0 =? 0xF0 then 0x90 else 0x80)
                    (if b0 =? 0xF4 then 0x8F else 0xBF) b1 then
          match r1 with
          | [] => [0xFFFD]
          | b2 :: r2 =>
            if in_range 0x80 0xBF b2 then
              match r2 with
              | [] => [0xFFFD]
              | b3 :: r3 =>
                if in_range 0x80 0xBF b3
                then ((b0 - 0xF0) * 262144 + (b1 - 0x80) * 4096
                      + (b2 - 0x80) * 64 + (b3 - 0x80)) :: utf8_decode r3
                else 0xFFFD :: utf8_decode r2
              end
            else 0xFFFD :: utf8_decode r1
          end
        else 0xFFFD :: utf8_decode r0
      end
    else 0xFFFD :: utf8_decode r0
  end.

(** Scalar values to a JS string (surrogate pairs above U+FFFF). *)
Definition cp_to_utf16 (c : Z) : jsstr :=
  if c <? 0x10000 then [c]
  else [0xD800 + (c - 0x10000) / 1024; 0xDC00 + (c - 0x10000) mod 1024].

(** [new TextDecoder().decode(buf)]: default options, so [fatal] is false
    (replacement, never an exception) and [ignoreBOM] is false (a leading
    U+FEFF is consumed as a byte order mark). *)
Definition TextDecoder_decode (bs : bytes) : jsstr :=
  let cps := utf8_decode bs in
  let cps := match cps with
             | c :: r => if c =? 0xFEFF then r else cps
             | [] => []
             end in
  flat_map cp_to_utf16 cps.

(** ** btoa / atob (HTML "forgiving-base64") *)

Definition b64_char (i : Z) : Z :=
  if i <? 26 then 65 + i
  else if i <? 52 then 97 + (i - 26)
  else if i <? 62 then 48 + (i - 52)
  else if i =? 62 then 43 else 47.

Definition b64_index (c : Z) : option Z :=
  if in_range 65 90 c then Some (c - 65)
  else if in_range 97 122 c then Some (c - 71)
  else if in_range 48 57 c then Some (c + 4)
  else if c =? 43 then Some 62
  else if c =? 47 then Some 63
  else None.

Fixpoint b64_encode (bs : list Z) : jsstr :=
  match bs with
  | b0 :: b1 :: b2 :: r =>
    [b64_char (b0 / 4); b64_char ((b0 mod 4) * 16 + b1 / 16);
     b64_char ((b1 mod 16) * 4 + b2 / 64); b64_char (b2 mod 64)] ++ b64_encode r
  | [b0; b1] =>
    [b64_char (b0 / 4); b64_char ((b0 mod 4) * 16 + b1 / 16);
     b64_char ((b1 mod 16) * 4); 61]
  | [b0] => [b64_char (b0 / 4); b64_char ((b0 mod 4) * 16); 61; 61]
  | [] => []
  end.

(** [window.btoa]: throws [InvalidCharacterError] on a code unit above 0xFF. *)
Definition btoa (s : jsstr) : option jsstr :=
  if forallb (fun u => (0 <=? u) && (u <=? 255)) s then Some (b64_encode s)
  else None.

Definition is_ascii_whitespace (c : Z) : bool :=
  (c =? 9) || (c =? 10) || (c =? 12) || (c =? 13) || (c =? 32).

(** "If data ends with one or two U+003D (=) code points, remove them." *)
Definition strip_padding (d : jsstr) : jsstr :=
  match rev d with
  | a :: b :: r =>
    if (a =? 61) && (b =? 61) then rev r
    else if a =? 61 then rev (b :: r) else d
  | [a] => if a =? 61 then [] else d
  | [] => d
  end.

Fixpoint map_option {A B} (f : A -> option B) (l : list A) : option (list B) :=
  match l with
  | [] => Some []
  | x :: r =>
    match f x, map_option f r with
    | Some y, Some ys => Some (y :: ys)
    | _, _ => None
    end
  end.

(** 24-bit groups of sextets; a final group of 12 (18) bits drops its last
    4 (2) bits. *)
Fixpoint b64_decode_sextets (sx : list Z) : list Z :=
  match sx with
  | a :: b :: c :: d :: r =>
    [a * 4 + b / 16; (b mod 16) * 16 + c / 4; (c mod 4) * 64 + d]
      ++ b64_decode_sextets r
  | [a; b; c] => [a * 4 + b / 16; (b mod 16) * 16 + c / 4]
  | [a; b] => [a * 4 + b / 16]
  | _ => []
  end.

(** [window.atob]: [None] is the thrown [InvalidCharacterError]. *)
Definition atob (s : jsstr) : option jsstr :=
  let d := filter (fun c => negb (is_ascii_whitespace c)) s in
  let d := if (Nat.modulo (length d) 4 =? 0)%nat then strip_padding d else d in
  if (Nat.modulo (length d) 4 =? 1)%nat then None
  else match map_option b64_index d with
       | None => None
       | Some sx => Some (b64_decode_sextets sx)
       end.

(** cryptoService.ts, [arrayBufferToBase64]: the binary string built with
    [String.fromCharCode] has the bytes as code units. *)
Definition arrayBufferToBase64 (buffer : bytes) : option jsstr := btoa buffer.

(** cryptoService.ts, [base64ToArrayBuffer]: [charCodeAt] of each unit. *)
Definition base64ToArrayBuffer (base64 : jsstr) : option bytes := atob base64.

(** ** JSON values, identities, envelopes (types.ts) *)

(** A JSON value as [JSON.parse] returns it; numbers are kept integral. *)
Inductive jsval : Type :=
| JUndefined
| JNull
| JBool (b : bool)
| JNum (n : Z)
| JStr (s : jsstr)
| JArr (l : list jsval)
| JObj (fields : list (jsstr * jsval)).

(** Property read [v.k]: [None] is the [TypeError] thrown on [null] or
    [undefined]; a missing property reads as [undefined]. *)
Definition js_get (v : jsval) (k : jsstr) : option jsval :=
  match v with
  | JUndefined | JNull => None
  | JObj fs =>
    match find (fun kv => if list_eq_dec Z.eq_dec (fst kv) k then true else false) fs with
    | Some kv => Some (snd kv)
    | None => Some JUndefined
    end
  | _ => Some JUndefined
  end.

Definition truthy (v : jsval) : bool :=
  match v with
  | JUndefined | JNull => false
  | JBool b => b
  | JNum n => negb (n =? 0)
  | JStr s => match s with [] => false | _ => true end
  | JArr _ | JObj _ => true
  end.

Record UserIdentity := {
  userId : jsstr;
  username : jsstr;
  publicKey : jsval;
  privateKey : jsval;
  publicKeyFingerprint : jsstr
}.

Record PublicIdentity := {
  pi_userId : jsstr;
  pi_username : jsstr;
  pi_publicKey : jsval;
  pi_publicKeyFingerprint : jsstr
}.

Record EncryptedMessage := {
  em_id : jsstr;
  em_senderId : jsstr;
  em_iv : jsstr;
  em_encryptedData : jsstr;
  em_signature : jsstr;
  em_timestamp : Z
}.

(** ChatInterface.tsx, [getPublicIdentity]. *)
Definition getPublicIdentity (identity : UserIdentity) : PublicIdentity :=
  {| pi_userId := userId identity;
     pi_username := username identity;
     pi_publicKey := publicKey identity;
     pi_publicKeyFingerprint := publicKeyFingerprint identity |}.

(** ** The WebCrypto platform *)

Record RsaPriv := { priv_n : Z; priv_d : Z }.
Record RsaPub := { pub_n : Z; pub_e : Z }.

Record Platform := {
  (** [subtle.encrypt({name:'AES-GCM', iv}, key, data)]: ciphertext and tag *)
  aes_encrypt : bytes -> bytes -> bytes -> bytes;
  (** [subtle.decrypt]: [None] is the rejected promise (OperationError) *)
  aes_decrypt : bytes -> bytes -> bytes -> option bytes;
  (** [subtle.importKey('jwk', ...)]: [None] is a rejected import *)
  import_public_jwk : jsval -> option RsaPub;
  import_private_jwk : jsval -> option RsaPriv;
  (** [subtle.verify({name:'RSA-PSS', saltLength: 32}, ...)] *)
  rsa_pss_verify : RsaPub -> bytes -> bytes -> bool;
  (** [subtle.digest('SHA-256', ...)] *)
  sha256 : bytes -> bytes;
  (** [JSON.stringify] *)
  json_stringify : jsval -> jsstr
}.

(** ** RSASSA-PSS signing (RFC 8017, 8.1.1 and 9.1.1) with SHA-256 *)

Definition hLen : nat := 32.

(** OS2IP, big-endian. *)
Definition OS2IP (X : bytes) : Z := fold_left (fun acc b => acc * 256 + b) X 0.

(** I2OSP [x] to [xLen] octets. *)
Fixpoint I2OSP (x : Z) (xLen : nat) : bytes :=
  match xLen with
  | O => []
  | S k => I2OSP (x / 256) k ++ [x mod 256]
  end.

Fixpoint xor_bytes (a b : bytes) : bytes :=
  match a, b with
  | x :: a', y :: b' => Z.lxor x y :: xor_bytes a' b'
  | _, _ => []
  end.

Definition MGF1 (hash : bytes -> bytes) (mgfSeed : bytes) (maskLen : nat) : bytes :=
  firstn maskLen
    (flat_map (fun counter => hash (mgfSeed ++ I2OSP (Z.of_nat counter) 4))
              (seq 0 (Nat.div (maskLen + hLen - 1) hLen))).

(** Set the leftmost [k] bits of the leftmost octet to zero. *)
Definition clear_leftmost_bits (k : Z) (X : bytes) : bytes :=
  match X with
  | b :: r => (b mod 2 ^ (8 - k)) :: r
  | [] => []
  end.

(** EMSA-PSS-ENCODE; [salt] holds the random octets the signer draws, of
    which the first [sLen] are used. [None] is "encoding error". *)
Definition EMSA_PSS_ENCODE (hash : bytes -> bytes) (sLen : nat) (M : bytes)
    (emBits : Z) (salt : bytes) : option bytes :=
  let mHash := hash M in
  let emLen := Z.to_nat ((emBits + 7) / 8) in
  if (emLen <? hLen + sLen + 2)%nat then None
  else
    let salt := firstn sLen salt in
    let M' := repeat 0 8 ++ mHash ++ salt in
    let H := hash M' in
    let PS := repeat 0 (emLen - sLen - hLen - 2) in
    let DB := PS ++ [1] ++ salt in
    let dbMask := MGF1 hash H (emLen - hLen - 1) in
    let maskedDB := clear_leftmost_bits (8 * Z.of_nat emLen - emBits)
                                        (xor_bytes DB dbMask) in
    Some (maskedDB ++ H ++ [0xbc]).

Fixpoint pow_mod_pos (b : Z) (p : positive) (n : Z) : Z :=
  match p with
  | xH => b mod n
  | xO q => let h := pow_mod_pos b q n in (h * h) mod n
  | xI q => let h := pow_mod_pos b q n in (h * h * b) mod n
  end.

Definition mod_pow (b e n : Z) : Z :=
  match e with
  | Zpos p => pow_mod_pos b p n
  | Z0 => 1 mod n
  | Zneg _ => 0
  end.

(** RSASP1: [None] is "message representative out of range". *)
Definition RSASP1 (K : RsaPriv) (m : Z) : option Z :=
  if (0 <=? m) && (m <? priv_n K) then Some (mod_pow m (priv_d K) (priv_n K))
  else None.

Definition RSASSA_PSS_SIGN (hash : bytes -> bytes) (sLen : nat) (K : RsaPriv)
    (salt M : bytes) : option bytes :=
  let modBits := Z.log2 (priv_n K) + 1 in
  match EMSA_PSS_ENCODE hash sLen M (modBits - 1) salt with
  | None => None
  | Some EM =>
    match RSASP1 K (OS2IP EM) with
    | None => None
    | Some s => Some (I2OSP s (Z.to_nat ((modBits + 7) / 8)))
    end
  end.

(** cryptoService.ts: [SIGN_ALGORITHM = { name: 'RSA-PSS', saltLength: 32 }]. *)
Definition SIGN_ALGORITHM_saltLength : nat := 32.

(** cryptoService.ts, [RSA_ALGORITHM.modulusLength]. *)
Definition RSA_modulusLength : Z := 2048.

(** cryptoService.ts, [signData]; [salt] is the platform's fresh randomness. *)
Definition signData (P : Platform) (privateKey : RsaPriv) (salt data : bytes)
  : option bytes :=
  RSASSA_PSS_SIGN (sha256 P) SIGN_ALGORITHM_saltLength privateKey salt data.

(** ** A small exception-and-trace monad for the promise chains *)

Inductive error : Type :=
| InvalidCharacterError   (** thrown by [atob] / [btoa] *)
| KeyImportError          (** rejected [importKey] *)
| SignOperationError      (** rejected [subtle.sign] *)
| SignatureInvalid.       (** [throw new Error("Message signature is invalid!
                               The sender's identity could not be verified.")] *)

Inductive event : Type :=
| EvVerify (ok : bool)    (** [subtle.verify] ran and resolved to [ok] *)
| EvDecrypt.              (** [subtle.decrypt] was called *)

Inductive result (A : Type) : Type :=
| Ok (a : A)
| Throw (e : error).
Arguments Ok {A} a.
Arguments Throw {A} e.

Definition M (A : Type) : Type := (list event * result A)%type.

Definition ret {A} (a : A) : M A := ([], Ok a).
Definition throw {A} (e : error) : M A := ([], Throw e).
Definition tell (ev : event) : M unit := ([ev], Ok tt).
Definition bind {A B} (m : M A) (f : A -> M B) : M B :=
  match m with
  | (t, Ok a) => let '(t', r) := f a in (t ++ t', r)
  | (t, Throw e) => (t, Throw e)
  end.
Definition lift {A} (o : option A) (e : error) : M A :=
  match o with Some a => ret a | None => throw e end.

Notation "x <- m ;; f" := (bind m (fun x => f))
  (at level 61, m at next level, right associativity).
Notation "m ;;; f" := (bind m (fun _ => f))
  (at level 61, right associativity).

(** ** cryptoService.ts *)

Definition importPublicKey (P : Platform) (jwk : jsval) : M RsaPub :=
  lift (import_public_jwk P jwk) KeyImportError.

Definition verifySignature (P : Platform) (pk : RsaPub) (signature data : bytes)
  : M bool :=
  let ok := rsa_pss_verify P pk signature data in
  tell (EvVerify ok) ;;; ret ok.

(** The string [decryptMessage] returns from its [catch]. *)
Definition decrypt_failure_text : jsstr :=
  [0x26A0; 0xFE0F] ++
  js " Could not decrypt message. Key might be wrong or message corrupted.".

Definition decryptMessage (P : Platform) (encryptedData iv key : bytes) : M jsstr :=
  tell EvDecrypt ;;;
  match aes_decrypt P key iv encryptedData with
  | Some decryptedBuffer => ret (TextDecoder_decode decryptedBuffer)
  | None => ret decrypt_failure_text
  end.

Definition readEncryptedPayload (P : Platform) (payload : EncryptedMessage)
    (peerIdentity : PublicIdentity) (sharedKey : bytes) : M jsstr :=
  encryptedData <- lift (base64ToArrayBuffer (em_encryptedData payload)) InvalidCharacterError ;;
  signature <- lift (base64ToArrayBuffer (em_signature payload)) InvalidCharacterError ;;
  iv <- lift (base64ToArrayBuffer (em_iv payload)) InvalidCharacterError ;;
  pk <- importPublicKey P (pi_publicKey peerIdentity) ;;
  isVerified <- verifySignature P pk signature encryptedData ;;
  if negb isVerified then throw SignatureInvalid
  else decryptMessage P encryptedData iv sharedKey.

(** [createEncryptedPayload]; [iv] is the output of
    [getRandomValues(new Uint8Array(12))], [salt] the signer's randomness,
    [uuid] the value of [crypto.randomUUID()], [now] of [Date.now()]. *)
Definition createEncryptedPayload (P : Platform) (text : jsstr)
    (localIdentity : UserIdentity) (sharedKey : bytes)
    (iv salt : bytes) (uuid : jsstr) (now : Z) : result EncryptedMessage :=
  let encryptedData := aes_encrypt P sharedKey iv (TextEncoder_encode text) in
  match import_private_jwk P (privateKey localIdentity) with
  | None => Throw KeyImportError
  | Some pk =>
    match signData P pk salt encryptedData with
    | None => Throw SignOperationError
    | Some signature =>
      match arrayBufferToBase64 iv, arrayBufferToBase64 encryptedData,
            arrayBufferToBase64 signature with
      | Some iv64, Some ed64, Some sig64 =>
        Ok {| em_id := uuid; em_senderId := userId localIdentity;
              em_iv := iv64; em_encryptedData := ed64; em_signature := sig64;
              em_timestamp := now |}
      | _, _, _ => Throw InvalidCharacterError
      end
    end
  end.

(** [generatePublicKeyFingerprint]: [b.toString(16).padStart(2, '0')]. *)
Definition hex_digit_lower (d : Z) : Z := if d <? 10 then 48 + d else 87 + d.

Definition toString16 (b : Z) : jsstr :=
  if b <? 16 then [hex_digit_lower b]
  else [hex_digit_lower (b / 16); hex_digit_lower (b mod 16)].

Definition padStart2 (s : jsstr) : jsstr :=
  repeat 48 (2 - length s) ++ s.

(** [toUpperCase] on the ASCII range (the only code units it meets here). *)
Definition toUpperCase (s : jsstr) : jsstr :=
  map (fun u => if in_range 97 122 u then u - 32 else u) s.

Definition generatePublicKeyFingerprint (P : Platform) (pk : jsval) : jsstr :=
  let pubKeyString := json_stringify P pk in
  let data := TextEncoder_encode pubKeyString in
  let hashArray := sha256 P data in
  toUpperCase (firstn 16 (flat_map (fun b => padStart2 (toString16 b)) hashArray)).

(** ** ChatInterface.tsx: peer and session-key state *)

Record Message := {
  msg_id : jsstr;
  msg_senderId : jsstr;
  msg_text : jsstr;
  msg_timestamp : Z;
  msg_isLocalSender : bool
}.

(** A suspended run of [deriveAndSetSharedKey], waiting on its [await]. *)
Inductive KeyJob : Type :=
| ImportStored (jwk : bytes)     (** [await importAesKey(JSON.parse(storedKey))] *)
| GenerateFresh (rel : nat).     (** [await generateSharedSecret()], started
                                     while relationship [rel] was current *)

Record ChatState := {
  peer : option jsval;              (** [useLocalStorage('peer-identity')] *)
  peerInput : jsstr;
  messages : list Message;          (** [useLocalStorage('chat-messages')] *)
  sharedKey : option bytes;         (** [useState<CryptoKey | null>] *)
  stored_aes_key : option bytes;    (** [localStorage 'shared-aes-key'] *)
  chat_error : jsstr;
  key_effect_due : bool;            (** [peer] changed; [useEffect([peer])] pending *)
  in_flight : list KeyJob;
  (** bookkeeping, not program state: *)
  relationship : nat;               (** peers accepted so far *)
  generated : list (bytes * nat);   (** keys generated, with their relationship *)
  sealed_with : list (bytes * nat)  (** key of each seal, with the relationship then *)
}.

Definition self_peer_error : jsstr := js "You can't add yourself as a peer.".
Definition invalid_peer_error : jsstr :=
  js "Invalid peer identity format. Please paste the correct JSON payload or scan a valid QR code.".

Definition set_error (e : jsstr) (s : ChatState) : ChatState :=
  {| peer := peer s; peerInput := peerInput s; messages := messages s;
     sharedKey := sharedKey s; stored_aes_key := stored_aes_key s;
     chat_error := e; key_effect_due := key_effect_due s; in_flight := in_flight s;
     relationship := relationship s; generated := generated s;
     sealed_with := sealed_with s |}.

Definition field_truthy (v : jsval) (k : jsstr) : bool :=
  match js_get v k with Some x => truthy x | None => false end.

(** [x === s] for a string [s]. *)
Definition strict_equals_string (x : jsval) (s : jsstr) : bool :=
  match x with
  | JStr t => if list_eq_dec Z.eq_dec t s then true else false
  | _ => false
  end.

(** ECMAScript WhiteSpace and LineTerminator, as removed by [trim]. *)
Definition js_is_space (u : Z) : bool :=
  (u =? 0x09) || (u =? 0x0A) || (u =? 0x0B) || (u =? 0x0C) || (u =? 0x0D)
  || (u =? 0x20) || (u =? 0xA0) || (u =? 0x1680) || in_range 0x2000 0x200A u
  || (u =? 0x2028) || (u =? 0x2029) || (u =? 0x202F) || (u =? 0x205F)
  || (u =? 0x3000) || (u =? 0xFEFF).

Fixpoint drop_spaces (s : jsstr) : jsstr :=
  match s with
  | u :: r => if js_is_space u then drop_spaces r else s
  | [] => []
  end.

Definition trim (s : jsstr) : jsstr := rev (drop_spaces (rev (drop_spaces s))).

Section Chat.

Variable JSON_parse : jsstr -> option jsval.
Variable identity : UserIdentity.

(** [handleAddPeer]: [setError('')], then parse and check; the [catch]
    covers the [JSON.parse] failure, a [TypeError] on [null] and the
    thrown "Invalid peer data structure." *)
Definition handleAddPeer (s : ChatState) : ChatState :=
  let s := set_error [] s in
  match JSON_parse (peerInput s) with
  | None => set_error invalid_peer_error s
  | Some parsedPeer =>
    match js_get parsedPeer (js "userId") with
    | None => set_error invalid_peer_error s
    | Some uid =>
      if truthy uid && field_truthy parsedPeer (js "username")
         && field_truthy parsedPeer (js "publicKey")
         && field_truthy parsedPeer (js "publicKeyFingerprint") then
        if strict_equals_string uid (userId identity) then
          set_error self_peer_error s
        else
          {| peer := Some parsedPeer; peerInput := []; messages := [];
             sharedKey := sharedKey s; stored_aes_key := None;
             chat_error := chat_error s;
             key_effect_due := true; in_flight := in_flight s;
             relationship := S (relationship s); generated := generated s;
             sealed_with := sealed_with s |}
      else set_error invalid_peer_error s
    end
  end.

(** The [useEffect] on [peer] running [deriveAndSetSharedKey] up to its
    first [await]. *)
Definition runKeyEffect (s : ChatState) : ChatState :=
  let jobs :=
    match peer s with
    | None => in_flight s
    | Some _ =>
      match stored_aes_key s with
      | Some jwk => in_flight s ++ [ImportStored jwk]
      | None => in_flight s ++ [GenerateFresh (relationship s)]
      end
    end in
  {| peer := peer s; peerInput := peerInput s; messages := messages s;
     sharedKey := sharedKey s; stored_aes_key := stored_aes_key s;
     chat_error := chat_error s; key_effect_due := false; in_flight := jobs;
     relationship := relationship s; generated := generated s;
     sealed_with := sealed_with s |}.

(** The oldest suspended [deriveAndSetSharedKey] resumes; [fresh] is the key
    [generateSharedSecret] resolves to. *)
Definition resolveKey (fresh : bytes) (s : ChatState) : option ChatState :=
  match in_flight s with
  | [] => None
  | ImportStored jwk :: rest =>
    Some {| peer := peer s; peerInput := peerInput s; messages := messages s;
            sharedKey := Some jwk; stored_aes_key := stored_aes_key s;
            chat_error := chat_error s; key_effect_due := key_effect_due s;
            in_flight := rest; relationship := relationship s;
            generated := generated s; sealed_with := sealed_with s |}
  | GenerateFresh r :: rest =>
    Some {| peer := peer s; peerInput := peerInput s; messages := messages s;
            sharedKey := Some fresh; stored_aes_key := Some fresh;
            chat_error := chat_error s; key_effect_due := key_effect_due s;
            in_flight := rest; relationship := relationship s;
            generated := (fresh, r) :: generated s;
            sealed_with := sealed_with s |}
  end.

(** [handleSendMessage] up to the local echo: the payload is sealed with the
    current [sharedKey]; the simulated receipt of the [setTimeout] is not
    modelled. *)
Definition handleSendMessage (message uuid : jsstr) (now : Z) (s : ChatState)
  : ChatState :=
  match trim message, peer s, sharedKey s with
  | _ :: _, Some _, Some k =>
    {| peer := peer s; peerInput := peerInput s;
       messages := messages s ++
         [{| msg_id := uuid; msg_senderId := userId identity;
             msg_text := trim message; msg_timestamp := now;
             msg_isLocalSender := true |}];
       sharedKey := sharedKey s; stored_aes_key := stored_aes_key s;
       chat_error := chat_error s; key_effect_due := key_effect_due s;
       in_flight := in_flight s; relationship := relationship s;
       generated := generated s; sealed_with := (k, relationship s) :: sealed_with s |}
  | _, _, _ => s
  end.

Definition disconnect (s : ChatState) : ChatState :=
  {| peer := None; peerInput := peerInput s; messages := messages s;
     sharedKey := sharedKey s; stored_aes_key := stored_aes_key s;
     chat_error := chat_error s; key_effect_due := true; in_flight := in_flight s;
     relationship := relationship s; generated := generated s;
     sealed_with := sealed_with s |}.

Definition set_peer_input (v : jsstr) (s : ChatState) : ChatState :=
  {| peer := peer s; peerInput := v; messages := messages s;
     sharedKey := sharedKey s; stored_aes_key := stored_aes_key s;
     chat_error := chat_error s; key_effect_due := key_effect_due s;
     in_flight := in_flight s; relationship := relationship s;
     generated := generated s; sealed_with := sealed_with s |}.

Inductive ChatEvent : Type :=
| TypePeerInput (v : jsstr)      (** textarea [onChange] (no peer connected) *)
| ConnectToPeer                  (** "Connect to Peer" button *)
| Disconnect                     (** "Disconnect" button *)
| RunKeyEffect
| ResolveKey (fresh : bytes)
| SendMessage (message uuid : jsstr) (now : Z).

(** One UI or scheduler step; [None] when the event is not enabled in [s]
    (the control is not rendered, or disabled). *)
Definition chat_step (s : ChatState) (ev : ChatEvent) : option ChatState :=
  match ev with
  | TypePeerInput v =>
    match peer s with None => Some (set_peer_input v s) | Some _ => None end
  | ConnectToPeer =>
    match peer s, peerInput s with
    | None, _ :: _ => Some (handleAddPeer s)
    | _, _ => None
    end
  | Disconnect => match peer s with Some _ => Some (disconnect s) | None => None end
  | RunKeyEffect => if key_effect_due s then Some (runKeyEffect s) else None
  | ResolveKey fresh => resolveKey fresh s
  | SendMessage m u t =>
    match peer s with Some _ => Some (handleSendMessage m u t s) | None => None end
  end.

Fixpoint chat_run (s : ChatState) (evs : list ChatEvent) : option ChatState :=
  match evs with
  | [] => Some s
  | ev :: rest =>
    match chat_step s ev with
    | Some s' => chat_run s' rest
    | None => None
    end
  end.

End Chat.

(** First mount with empty storage. *)
Definition chat_init : ChatState :=
  {| peer := None; peerInput := []; messages := []; sharedKey := None;
     stored_aes_key := None; chat_error := []; key_effect_due := true;
     in_flight := []; relationship := 0; generated := []; sealed_with := [] |}.

(** ** Properties of the platform the claims rely on *)

(** AES-GCM decrypts what it encrypted and yields bytes; SHA-256 yields 32
    bytes. *)
Record platform_ok (P : Platform) : Prop := {
  aes_correct : forall k iv m, aes_decrypt P k iv (aes_encrypt P k iv m) = Some m;
  aes_bytes : forall k iv m, Forall is_byte k -> Forall is_byte iv ->
    Forall is_byte m -> Forall is_byte (aes_encrypt P k iv m);
  sha_len : forall x, length (sha256 P x) = hLen;
  sha_bytes : forall x, Forall is_byte (sha256 P x)
}.

(** A 2048-bit RSA private key ([RSA_ALGORITHM.modulusLength]) whose
    exponent can be undone (RSA correctness for the pair). *)
Definition rsa_priv_ok (K : RsaPriv) : Prop :=
  2 ^ (RSA_modulusLength - 1) <= priv_n K < 2 ^ RSA_modulusLength /\
  exists e, forall m, 0 <= m < priv_n K ->
    mod_pow (mod_pow m (priv_d K) (priv_n K)) e (priv_n K) = m.

(** An identity whose two JWKs import, and whose public key accepts the
    signatures its private key makes. *)
Definition identity_keys_ok (P : Platform) (I : UserIdentity) : Prop :=
  exists pub priv,
    import_public_jwk P (publicKey I) = Some pub /\
    import_private_jwk P (privateKey I) = Some priv /\
    rsa_priv_ok priv /\
    forall salt data s, signData P priv salt data = Some s ->
      rsa_pss_verify P pub s data = true.

(** Well-formed UTF-16: every high surrogate followed by a low one, no lone
    low surrogate. *)
Fixpoint wf_utf16 (s : jsstr) : bool :=
  match s with
  | [] => true
  | u :: rest =>
    in_range 0 0xFFFF u &&
    (if is_high_surrogate u then
       match rest with
       | u2 :: rest' => is_low_surrogate u2 && wf_utf16 rest'
       | [] => false
       end
     else negb (is_low_surrogate u) && wf_utf16 rest)
  end.

Definition starts_with_bom (s : jsstr) : bool :=
  match s with u :: _ => u =? 0xFEFF | [] => false end.

(** Spec side of the fingerprint: the first 8 digest bytes in upper-case hex. *)
Definition hex_digit_upper (d : Z) : Z := if d <? 10 then 48 + d else 55 + d.
Definition hex_upper_byte (b : Z) : jsstr :=
  [hex_digit_upper (b / 16); hex_digit_upper (b mod 16)].
Definition fingerprint_digest (P : Platform) (pk : jsval) : bytes :=
  sha256 P (TextEncoder_encode (json_stringify P pk)).
Definition fingerprint_spec (P : Platform) (pk : jsval) : jsstr :=
  flat_map hex_upper_byte (firstn 8 (fingerprint_digest P pk)).

(** ** Concrete inputs *)

(** A platform instance: the toy cipher prefixes key and nonce, the toy
    digest pads or truncates to 32 bytes, every signature verifies. *)
Definition toy_n : Z := 2 ^ 2048 - 1.
Definition toy_priv : RsaPriv := {| priv_n := toy_n; priv_d := 1 |}.
Definition toy_pub : RsaPub := {| pub_n := toy_n; pub_e := 1 |}.

Definition toy_platform : Platform := {|
  aes_encrypt := fun k iv m => k ++ iv ++ m;
  aes_decrypt := fun k iv c =>
    if list_eq_dec Z.eq_dec (firstn (length (k ++ iv)) c) (k ++ iv)
    then Some (skipn (length (k ++ iv)) c) else None;
  import_public_jwk := fun _ => Some toy_pub;
  import_private_jwk := fun _ => Some toy_priv;
  rsa_pss_verify := fun _ _ _ => true;
  sha256 := fun x => map (fun b => b mod 256) (firstn 32 (x ++ repeat 0 32));
  json_stringify := fun _ => js "{}"
|}.

Definition alice : UserIdentity := {|
  userId := js "alice-id";
  username := js "Alice";
  publicKey := JObj [(js "kty", JStr (js "RSA")); (js "e", JStr (js "AQAB"))];
  privateKey := JObj [(js "kty", JStr (js "RSA")); (js "d", JStr (js "AQ"))];
  publicKeyFingerprint := js "0123456789ABCDEF"
|}.

Definition key1 : bytes := repeat 1 32.
Definition key2 : bytes := repeat 2 32.
Definition iv12 : bytes := repeat 7 12.
Definition salt_a : bytes := repeat 5 32.
Definition salt_b : bytes := repeat 6 32.

(** JSON text with ['] standing for a double quote. *)
Definition jq (s : string) : jsstr := map (fun u => if u =? 39 then 34 else u) (js s).

Definition peer_obj (id name : string) : jsval :=
  JObj [(js "userId", JStr (js id)); (js "username", JStr (js name));
        (js "publicKey", JObj [(js "kty", JStr (js "RSA"))]);
        (js "publicKeyFingerprint", JStr (js "0123456789ABCDEF"))].

Definition bob_input : jsstr :=
  jq "{'userId':'bob-id','username':'Bob','publicKey':{'kty':'RSA'},'publicKeyFingerprint':'0123456789ABCDEF'}".
Definition carol_input : jsstr :=
  jq "{'userId':'carol-id','username':'Carol','publicKey':{'kty':'RSA'},'publicKeyFingerprint':'0123456789ABCDEF'}".
Definition self_input : jsstr :=
  jq "{'userId':'alice-id','username':'Alice','publicKey':{'kty':'RSA'},'publicKeyFingerprint':'0123456789ABCDEF'}".

(** [JSON.parse] on the three payloads above. *)
Definition table_parse (s : jsstr) : option jsval :=
  if list_eq_dec Z.eq_dec s bob_input then Some (peer_obj "bob-id" "Bob")
  else if list_eq_dec Z.eq_dec s carol_input then Some (peer_obj "carol-id" "Carol")
  else if list_eq_dec Z.eq_dec s self_input then Some (peer_obj "alice-id" "Alice")
  else None.

Definition keyA : bytes := repeat 10 32.
Definition keyB : bytes := repeat 11 32.

(** Connect to Bob, get his key, disconnect, connect to Carol, send at once. *)
Definition stale_key_trace : list ChatEvent :=
  [TypePeerInput bob_input; ConnectToPeer; RunKeyEffect; ResolveKey keyA;
   Disconnect; RunKeyEffect; TypePeerInput carol_input; ConnectToPeer;
   SendMessage (js "hi Carol") (js "m-1") 1000].

(** ** Auxiliary views of the codecs *)

(** The sextets [b64_encode] emits, and its padding. *)
Fixpoint b64_sextets (bs : list Z) : list Z :=
  match bs with
  | b0 :: b1 :: b2 :: r =>
    [b0 / 4; (b0 mod 4) * 16 + b1 / 16; (b1 mod 16) * 4 + b2 / 64; b2 mod 64]
      ++ b64_sextets r
  | [b0; b1] => [b0 / 4; (b0 mod 4) * 16 + b1 / 16; (b1 mod 16) * 4]
  | [b0] => [b0 / 4; (b0 mod 4) * 16]
  | [] => []
  end.

Fixpoint b64_pad (bs : list Z) : jsstr :=
  match bs with
  | _ :: _ :: _ :: r => b64_pad r
  | [_; _] => [61]
  | [_] => [61; 61]
  | [] => []
  end.

Definition is_scalar (c : Z) : Prop := 0 <= c <= 0x10FFFF /\ ~ (0xD800 <= c <= 0xDFFF).

(** Boolean byte test, to check concrete octet strings by evaluation. *)
Definition is_byteb (b : Z) : bool := (0 <=? b) && (b <? 256).

(** [String.prototype.toWellFormed]: every lone surrogate replaced by U+FFFD. *)
Definition toWellFormed (s : jsstr) : jsstr := flat_map cp_to_utf16 (utf16_scalars s).

(** A leading U+FEFF removed. *)
Definition strip_bom (s : jsstr) : jsstr :=
  match s with u :: r => if u =? 0xFEFF then r else s | [] => [] end.

(** ** ChatInterface.tsx: the public identity handed to a peer *)

(** The object [getPublicIdentity()] that the QR code of "Your Public
    Identity" serialises with [JSON.stringify]. *)
Definition publicIdentity_json (p : PublicIdentity) : jsval :=
  JObj [(js "userId", JStr (pi_userId p)); (js "username", JStr (pi_username p));
        (js "publicKey", pi_publicKey p);
        (js "publicKeyFingerprint", JStr (pi_publicKeyFingerprint p))].

(** ** IdentitySetup.tsx *)

Record SetupState := {
  su_username : jsstr;
  su_isLoading : bool;
  su_error : jsstr;
  su_created : option UserIdentity   (** the argument of [onIdentityCreated] *)
}.

Definition empty_username_error : jsstr := js "Username cannot be empty.".
Definition keygen_error : jsstr :=
  js "Could not generate cryptographic keys. Please try again.".

(** [handleCreateIdentity]; [keys] is the outcome of [generateRsaKeyPair]
    and the two [exportKey] calls (public JWK, private JWK; [None] when one
    of them rejects), [uuid] the value of [crypto.randomUUID()]. *)
Definition handleCreateIdentity (P : Platform) (keys : option (jsval * jsval))
    (uuid : jsstr) (s : SetupState) : SetupState :=
  match trim (su_username s) with
  | [] =>
    {| su_username := su_username s; su_isLoading := su_isLoading s;
       su_error := empty_username_error; su_created := su_created s |}
  | _ :: _ =>
    match keys with
    | None =>
      {| su_username := su_username s; su_isLoading := false;
         su_error := keygen_error; su_created := su_created s |}
    | Some (publicKey, privateKey) =>
      let fingerprint := generatePublicKeyFingerprint P publicKey in
      {| su_username := su_username s; su_isLoading := true; su_error := [];
         su_created := Some {| userId := uuid; username := su_username s;
                               publicKey := publicKey; privateKey := privateKey;
                               publicKeyFingerprint := fingerprint |} |}
    end
  end.

(** ** App.tsx: [localStorage] and [handleLogout] *)

(** [localStorage] as an association list, one entry per key. *)
Definition Storage := list (jsstr * jsstr).

Definition key_eqb (a b : jsstr) : bool :=
  if list_eq_dec Z.eq_dec a b then true else false.

Definition getItem (k : jsstr) (st : Storage) : option jsstr :=
  match find (fun kv => key_eqb (fst kv) k) st with
  | Some kv => Some (snd kv)
  | None => None
  end.

Definition removeItem (k : jsstr) (st : Storage) : Storage :=
  filter (fun kv => negb (key_eqb (fst kv) k)) st.

Definition setItem (k v : jsstr) (st : Storage) : Storage := (k, v) :: removeItem k st.

(** [handleLogout]; [confirmed] is the answer to [window.confirm].  After
    [setIdentity(null)] the [useLocalStorage] effect of [App] stores
    [JSON.stringify(null)] under 'user-identity'. *)
Definition handleLogout (confirmed : bool) (st : Storage) : Storage :=
  if confirmed then
    setItem (js "user-identity") (js "null")
      (removeItem (js "chat-messages")
         (removeItem (js "peer-identity") (removeItem (js "user-identity") st)))
  else st.

(** The condition [parsedPeer.userId && parsedPeer.username &&
    parsedPeer.publicKey && parsedPeer.publicKeyFingerprint] of
    [handleAddPeer]. *)
Definition peer_fields_truthy (v : jsval) : bool :=
  field_truthy v (js "userId") && field_truthy v (js "username")
  && field_truthy v (js "publicKey") && field_truthy v (js "publicKeyFingerprint").

(** Everything the key state holds, has queued for import or has sealed
    with was produced by [generateSharedSecret] during the session. *)
Definition keys_generated (s : ChatState) : Prop :=
  (forall k, sharedKey s = Some k -> In k (map fst (generated s))) /\
  (forall k, stored_aes_key s = Some k -> In k (map fst (generated s))) /\
  (forall k r, In (k, r) (sealed_with s) -> In k (map fst (generated s))) /\
  (forall k, In (ImportStored k) (in_flight s) -> In k (map fst (generated s))).

(** A second local user, and [JSON.parse] on what [toy_platform]'s
    [JSON.stringify] makes of Alice's public identity. *)
Definition bob_identity : UserIdentity := {|
  userId := js "bob-id";
  username := js "Bob";
  publicKey := JObj [(js "kty", JStr (js "RSA"))];
  privateKey := JObj [(js "kty", JStr (js "RSA"))];
  publicKeyFingerprint := js "FEDCBA9876543210"
|}.

Definition alice_card_parse (s : jsstr) : option jsval :=
  if list_eq_dec Z.eq_dec s (js "{}")
  then Some (publicIdentity_json (getPublicIdentity alice)) else None.

(** An envelope whose plaintext under [key1] is the UTF-8 form of the lone
    surrogate U+D800 (ED A0 80), which TextDecoder rejects. *)
Definition surrogate_envelope : EncryptedMessage := {|
  em_id := js "m-9"; em_senderId := js "alice-id";
  em_iv := b64_encode iv12;
  em_encryptedData := b64_encode (key1 ++ iv12 ++ [0xED; 0xA0; 0x80]);
  em_signature := js "AAAA";
  em_timestamp := 0
|}.

(** ** [JSON.stringify] (ECMA-262, SerializeJSONProperty and QuoteJSONString) *)












(** ** SHA-256 (FIPS 180-4) *)

(** The round constants, eight to a row as in FIPS 180-4, 4.2.2. *)
Definition sha_K : list Z := concat [
  [ 0x428a2f98 ; 0x71374491 ; 0xb5c0fbcf ; 0xe9b5dba5 ; 0x3956c25b ; 0x59f111f1 ; 0x923f82a4 ; 0xab1c5ed5 ];
  [ 0xd807aa98 ; 0x12835b01 ; 0x243185be ; 0x550c7dc3 ; 0x72be5d74 ; 0x80deb1fe ; 0x9bdc06a7 ; 0xc19bf174 ];
  [ 0xe49b69c1 ; 0xefbe4786 ; 0x0fc19dc6 ; 0x240ca1cc ; 0x2de92c6f ; 0x4a7484aa ; 0x5cb0a9dc ; 0x76f988da ];
  [ 0x983e5152 ; 0xa831c66d ; 0xb00327c8 ; 0xbf597fc7 ; 0xc6e00bf3 ; 0xd5a79147 ; 0x06ca6351 ; 0x14292967 ];
  [ 0x27b70a85 ; 0x2e1b2138 ; 0x4d2c6dfc ; 0x53380d13 ; 0x650a7354 ; 0x766a0abb ; 0x81c2c92e ; 0x92722c85 ];
  [ 0xa2bfe8a1 ; 0xa81a664b ; 0xc24b8b70 ; 0xc76c51a3 ; 0xd192e819 ; 0xd6990624 ; 0xf40e3585 ; 0x106aa070 ];
  [ 0x19a4c116 ; 0x1e376c08 ; 0x2748774c ; 0x34b0bcb5 ; 0x391c0cb3 ; 0x4ed8aa4a ; 0x5b9cca4f ; 0x682e6ff3 ];
  [ 0x748f82ee ; 0x78a5636f ; 0x84c87814 ; 0x8cc70208 ; 0x90befffa ; 0xa4506ceb ; 0xbef9a3f7 ; 0xc67178f2 ] ].

Definition sha_word := (Z * Z * Z * Z * Z * Z * Z * Z)%type.

Definition sha_H0 : sha_word :=
  (0x6a09e667, 0xbb67ae85, 0x3c6ef372, 0xa54ff53a,
   0x510e527f, 0x9b05688c, 0x1f83d9ab, 0x5be0cd19).

Definition add32 (a b : Z) : Z := (a + b) mod 2 ^ 32.
Definition rotr (x : Z) (n : Z) : Z :=
  Z.lor (Z.shiftr x n) (Z.land (Z.shiftl x (32 - n)) (Z.ones 32)).
Definition Sigma0 (x : Z) : Z := Z.lxor (Z.lxor (rotr x 2) (rotr x 13)) (rotr x 22).
Definition Sigma1 (x : Z) : Z := Z.lxor (Z.lxor (rotr x 6) (rotr x 11)) (rotr x 25).
Definition sigma0 (x : Z) : Z := Z.lxor (Z.lxor (rotr x 7) (rotr x 18)) (Z.shiftr x 3).
Definition sigma1 (x : Z) : Z := Z.lxor (Z.lxor (rotr x 17) (rotr x 19)) (Z.shiftr x 10).
Definition Ch (x y z : Z) : Z := Z.lxor (Z.land x y) (Z.land (Z.lxor x (Z.ones 32)) z).
Definition Maj (x y z : Z) : Z := Z.lxor (Z.lxor (Z.land x y) (Z.land x z)) (Z.land y z).

(** Padding: [0x80], zeros, and the bit length as 8 big-endian bytes. *)
Definition sha_pad (m : bytes) : bytes :=
  let L := length m in
  m ++ [128] ++ repeat 0 ((64 - (L + 9) mod 64) mod 64) ++ I2OSP (8 * Z.of_nat L) 8.

Fixpoint be_words (bs : bytes) : list Z :=
  match bs with
  | a :: b :: c :: d :: r => (((a * 256 + b) * 256 + c) * 256 + d) :: be_words r
  | _ => []
  end.

(** The message schedule, extended from 16 to 64 words. *)
Fixpoint sha_schedule (fuel : nat) (w : list Z) : list Z :=
  match fuel with
  | O => w
  | S f =>
    let t := length w in
    let wt := add32 (add32 (sigma1 (nth (t - 2) w 0)) (nth (t - 7) w 0))
                    (add32 (sigma0 (nth (t - 15) w 0)) (nth (t - 16) w 0)) in
    sha_schedule f (w ++ [wt])
  end.

Definition sha_round (st : sha_word) (kw : Z * Z) : sha_word :=
  let '(a, b, c, d, e, f, g, h) := st in
  let '(k, w) := kw in
  let T1 := add32 (add32 (add32 h (Sigma1 e)) (add32 (Ch e f g) k)) w in
  let T2 := add32 (Sigma0 a) (Maj a b c) in
  (add32 T1 T2, a, b, c, add32 d T1, e, f, g).

Definition sha_compress (H : sha_word) (block : bytes) : sha_word :=
  let W := sha_schedule 48 (be_words block) in
  let '(a, b, c, d, e, f, g, h) := fold_left sha_round (combine sha_K W) H in
  let '(a0, b0, c0, d0, e0, f0, g0, h0) := H in
  (add32 a0 a, add32 b0 b, add32 c0 c, add32 d0 d,
   add32 e0 e, add32 f0 f, add32 g0 g, add32 h0 h).

Fixpoint sha_blocks (fuel : nat) (H : sha_word) (bs : bytes) : sha_word :=
  match fuel with
  | O => H
  | S f =>
    match bs with
    | [] => H
    | _ => sha_blocks f (sha_compress H (firstn 64 bs)) (skipn 64 bs)
    end
  end.

Definition SHA256 (m : bytes) : bytes :=
  let p := sha_pad m in
  let '(a, b, c, d, e, f, g, h) := sha_blocks (length p) sha_H0 p in
  flat_map (fun w => I2OSP w 4) [a; b; c; d; e; f; g; h].

Definition hexs (bs : bytes) : jsstr :=
  flat_map (fun b => [hex_digit_lower (b / 16); hex_digit_lower (b mod 16)]) bs.

(** ** The spec's fingerprint over canonical JSON (RFC 8785: members sorted
    by their names' UTF-16 code units, serialized as [JSON.stringify] does) *)








(** The text of the [catch] of [handleSendMessage] before [${err}]. *)
Definition send_error_prefix : jsstr :=
  [0x26A0; 0xFE0F] ++ js " Error sending message: ".

(** [handleSendMessage] with both outcomes of [createEncryptedPayload], up
    to the local echo (the simulated receipt of the [setTimeout] is not
    modelled).  A resolved payload is echoed with its id and timestamp and
    is sealed with the current [sharedKey]; a rejection reaches the
    [catch], which appends a ['system'] entry.  [err_message] is the
    [message] of the thrown error; [iv], [salt], [uuid] and [now] are the
    randomness, [randomUUID()] and [Date.now()] of [createEncryptedPayload],
    [errId] and [errNow] those of the [catch]. *)
Definition handleSendMessage_seal (P : Platform) (identity : UserIdentity)
    (err_message : error -> jsstr) (message : jsstr) (iv salt : bytes)
    (uuid : jsstr) (now : Z) (errId : jsstr) (errNow : Z) (s : ChatState)
  : ChatState :=
  match trim message, peer s, sharedKey s with
  | _ :: _, Some _, Some k =>
    match createEncryptedPayload P (trim message) identity k iv salt uuid now with
    | Ok encryptedPayload =>
      {| peer := peer s; peerInput := peerInput s;
         messages := messages s ++
           [{| msg_id := em_id encryptedPayload; msg_senderId := userId identity;
               msg_text := trim message;
               msg_timestamp := em_timestamp encryptedPayload;
               msg_isLocalSender := true |}];
         sharedKey := sharedKey s; stored_aes_key := stored_aes_key s;
         chat_error := chat_error s; key_effect_due := key_effect_due s;
         in_flight := in_flight s; relationship := relationship s;
         generated := generated s;
         sealed_with := (k, relationship s) :: sealed_with s |}
    | Throw e =>
      {| peer := peer s; peerInput := peerInput s;
         messages := messages s ++
           [{| msg_id := errId; msg_senderId := js "system";
               msg_text := send_error_prefix ++ err_message e;
               msg_timestamp := errNow; msg_isLocalSender := true |}];
         sharedKey := sharedKey s; stored_aes_key := stored_aes_key s;
         chat_error := chat_error s; key_effect_due := key_effect_due s;
         in_flight := in_flight s; relationship := relationship s;
         generated := generated s; sealed_with := sealed_with s |}
    end
  | _, _, _ => s
  end.

(** [toy_platform] on which no private key imports. *)
Definition noimport_platform : Platform := {|
  aes_encrypt := aes_encrypt toy_platform;
  aes_decrypt := aes_decrypt toy_platform;
  import_public_jwk := import_public_jwk toy_platform;
  import_private_jwk := fun _ => None;
  rsa_pss_verify := rsa_pss_verify toy_platform;
  sha256 := sha256 toy_platform;
  json_stringify := json_stringify toy_platform
|}.

(** * Proofs *)

Ltac zlia := cbv beta in *; Z.div_mod_to_equations; lia.

(** ** The chat state machine *)

(** C10: a well-formed payload carrying the local user's own [userId] is
    refused with "You can't add yourself as a peer."; the connected peer,
    the message list, the stored session key and the in-memory session key
    are unchanged, only the error text is set. *)
Theorem handleAddPeer_rejects_self :
  forall (JSON_parse : jsstr -> option jsval) (identity : UserIdentity)
         (s : ChatState) (parsedPeer : jsval) (uid : jsstr),
    JSON_parse (peerInput s) = Some parsedPeer ->
    js_get parsedPeer (js "userId") = Some (JStr uid) ->
    uid <> [] ->
    field_truthy parsedPeer (js "username") = true ->
    field_truthy parsedPeer (js "publicKey") = true ->
    field_truthy parsedPeer (js "publicKeyFingerprint") = true ->
    uid = userId identity ->
    let s' := handleAddPeer JSON_parse identity s in
    s' = set_error self_peer_error s /\
    peer s' = peer s /\ messages s' = messages s /\
    stored_aes_key s' = stored_aes_key s /\ sharedKey s' = sharedKey s /\
    peerInput s' = peerInput s /\ chat_error s' = self_peer_error.
Proof.
  intros JSON_parse identity s parsedPeer uid Hparse Huid Hne Hname Hkey Hfp Heq s'.
  assert (Hs : s' = set_error self_peer_error s).
  { subst s'. unfold handleAddPeer. cbn [peerInput set_error].
    rewrite Hparse, Huid, Hname, Hkey, Hfp.
    destruct uid as [|u uid']; [congruence|].
    cbn [truthy andb strict_equals_string]. subst.
    destruct (list_eq_dec Z.eq_dec _ _) as [_|C]; [|congruence].
    reflexivity. }
  rewrite Hs. repeat split; reflexivity.
Qed.

Lemma handleAddPeer_rejects_self_witness :
  let s := set_peer_input self_input chat_init in
  table_parse (peerInput s) = Some (peer_obj "alice-id" "Alice") /\
  handleAddPeer table_parse alice s = set_error self_peer_error s.
Proof.
  intros s. split; [vm_compute; reflexivity|].
  refine (proj1 (handleAddPeer_rejects_self table_parse alice s
                   (peer_obj "alice-id" "Alice") (js "alice-id")
                   _ _ _ _ _ _ _));
    [vm_compute; reflexivity | reflexivity | discriminate
    | reflexivity | reflexivity | reflexivity | reflexivity].
Defined.

(** C9 (fails): after the user disconnects from Bob and connects to Carol,
    the in-memory [sharedKey] still holds the key generated for Bob
    ([handleAddPeer] only removes the stored copy), so a message sent before
    the asynchronous [deriveAndSetSharedKey] resumes is sealed with Bob's
    key in the relationship with Carol: no fresh key was generated for
    relationship 2 before the seal. *)
Theorem stale_session_key_reused :
  exists s,
    chat_run table_parse alice chat_init stale_key_trace = Some s /\
    peer s = Some (peer_obj "carol-id" "Carol") /\
    sharedKey s = Some keyA /\
    relationship s = 2%nat /\
    generated s = [(keyA, 1%nat)] /\
    sealed_with s = [(keyA, 2%nat)].
Proof.
  match eval vm_compute in (chat_run table_parse alice chat_init stale_key_trace)
  with Some ?s => exists s end.
  repeat split; vm_compute; reflexivity.
Qed.

(** ** Opening an envelope: order of operations *)

(** Every run of [readEncryptedPayload] is one of three shapes: it throws
    before verifying, it verifies and throws [SignatureInvalid], or it
    verifies successfully and then decrypts. *)
Lemma readEncryptedPayload_shapes :
  forall P payload peerIdentity sharedKey,
    (exists e, readEncryptedPayload P payload peerIdentity sharedKey = ([], Throw e)) \/
    readEncryptedPayload P payload peerIdentity sharedKey
      = ([EvVerify false], Throw SignatureInvalid) \/
    (exists x, readEncryptedPayload P payload peerIdentity sharedKey
               = ([EvVerify true; EvDecrypt], Ok x)).
Proof.
  intros P payload peerIdentity sharedKey.
  unfold readEncryptedPayload, lift, importPublicKey, verifySignature,
    decryptMessage, bind, tell, ret, throw.
  destruct (base64ToArrayBuffer (em_encryptedData payload)) as [ed|];
    [|left; eexists; reflexivity].
  destruct (base64ToArrayBuffer (em_signature payload)) as [sg|];
    [|left; eexists; reflexivity].
  destruct (base64ToArrayBuffer (em_iv payload)) as [iv|];
    [|left; eexists; reflexivity].
  destruct (import_public_jwk P (pi_publicKey peerIdentity)) as [pk|];
    [|left; eexists; reflexivity].
  cbn. destruct (rsa_pss_verify P pk sg ed); cbn.
  - right; right.
    destruct (aes_decrypt P sharedKey iv ed); eexists; reflexivity.
  - right; left; reflexivity.
Qed.

(** C2: verify-then-decrypt. When verification resolves to false the run
    ends with the signature error and no decryption step occurs; and in any
    run, every decryption step is preceded by a successful verification. *)
Theorem open_verifies_before_decrypting :
  forall P payload peerIdentity sharedKey tr r,
    readEncryptedPayload P payload peerIdentity sharedKey = (tr, r) ->
    (In (EvVerify false) tr -> r = Throw SignatureInvalid /\ ~ In EvDecrypt tr) /\
    (forall pre post, tr = pre ++ EvDecrypt :: post -> In (EvVerify true) pre).
Proof.
  intros P payload peerIdentity sharedKey tr r Hrun.
  destruct (readEncryptedPayload_shapes P payload peerIdentity sharedKey)
    as [[e He] | [He | [x He]]]; rewrite He in Hrun; injection Hrun as <- <-.
  - split; [intros []|].
    intros pre post Hp. destruct pre; discriminate.
  - split.
    + intros _. split; [reflexivity|]. intros [H|[]]; discriminate.
    + intros pre post Hp. destruct pre as [|a [|b pre]]; cbn in Hp; inversion Hp.
  - split.
    + intros [H|[H|[]]]; discriminate.
    + intros pre post Hp. destruct pre as [|a pre]; cbn in Hp; [discriminate|].
      injection Hp as -> Hp. left; reflexivity.
Qed.

Lemma open_verifies_before_decrypting_witness :
  let env := {| em_id := js "m"; em_senderId := js "alice-id";
                em_iv := js "BwcHBwcHBwcHBwcH"; em_encryptedData := js "AAAA";
                em_signature := js "AAAA"; em_timestamp := 0 |} in
  readEncryptedPayload toy_platform env (getPublicIdentity alice) key1
    = ([EvVerify true; EvDecrypt], Ok decrypt_failure_text) /\
  (In (EvVerify false) [EvVerify true; EvDecrypt] ->
     @Ok jsstr decrypt_failure_text = Throw SignatureInvalid /\
     ~ In EvDecrypt [EvVerify true; EvDecrypt]) /\
  (forall pre post, [EvVerify true; EvDecrypt] = pre ++ EvDecrypt :: post ->
     In (EvVerify true) pre).
Proof.
  intros env.
  assert (H : readEncryptedPayload toy_platform env (getPublicIdentity alice) key1
              = ([EvVerify true; EvDecrypt], Ok decrypt_failure_text))
    by (vm_compute; reflexivity).
  split; [exact H|].
  exact (open_verifies_before_decrypting toy_platform env (getPublicIdentity alice)
           key1 _ _ H).
Defined.

(** C5 (as the code has it): a field that [atob] rejects makes [open] throw
    before any key import, verification or decryption.  Once the three
    fields decode and the key imports, the signature is verified; if it
    verifies, decryption is attempted with the decoded nonce [iv], whatever
    its length, and [open] returns its result; otherwise [open] throws. *)
Theorem open_decode_failure_and_unchecked_nonce :
  forall P payload peerIdentity sharedKey,
    (base64ToArrayBuffer (em_encryptedData payload) = None \/
     base64ToArrayBuffer (em_signature payload) = None \/
     base64ToArrayBuffer (em_iv payload) = None ->
     readEncryptedPayload P payload peerIdentity sharedKey
       = ([], Throw InvalidCharacterError)) /\
    (forall ed sg iv pk,
       base64ToArrayBuffer (em_encryptedData payload) = Some ed ->
       base64ToArrayBuffer (em_signature payload) = Some sg ->
       base64ToArrayBuffer (em_iv payload) = Some iv ->
       import_public_jwk P (pi_publicKey peerIdentity) = Some pk ->
       readEncryptedPayload P payload peerIdentity sharedKey
       = if rsa_pss_verify P pk sg ed
         then ([EvVerify true; EvDecrypt],
               Ok (match aes_decrypt P sharedKey iv ed with
                   | Some pt => TextDecoder_decode pt
                   | None => decrypt_failure_text
                   end))
         else ([EvVerify false], Throw SignatureInvalid)).
Proof.
  intros P payload peerIdentity sharedKey. split.
  - intros H. unfold readEncryptedPayload, lift, bind, ret, throw.
    destruct H as [H|[H|H]]; rewrite H; [reflexivity| |].
    + destruct (base64ToArrayBuffer (em_encryptedData payload)); reflexivity.
    + destruct (base64ToArrayBuffer (em_encryptedData payload));
        destruct (base64ToArrayBuffer (em_signature payload)); reflexivity.
  - intros ed sg iv pk Hed Hsg Hiv Hpk.
    unfold readEncryptedPayload, lift, importPublicKey, verifySignature,
      decryptMessage, bind, tell, ret, throw.
    rewrite Hed, Hsg, Hiv, Hpk. cbn.
    destruct (rsa_pss_verify P pk sg ed); cbn;
      [destruct (aes_decrypt P sharedKey iv ed)|]; reflexivity.
Qed.

Lemma open_decode_failure_and_unchecked_nonce_witness :
  base64ToArrayBuffer (js "AAAA") = Some [0; 0; 0] /\
  base64ToArrayBuffer (js "BwcHBwcHBwcHBwcH") = Some iv12 /\
  readEncryptedPayload toy_platform
    {| em_id := js "m"; em_senderId := js "alice-id"; em_iv := js "%";
       em_encryptedData := js "AAAA"; em_signature := js "AAAA"; em_timestamp := 0 |}
    (getPublicIdentity alice) key1 = ([], Throw InvalidCharacterError) /\
  readEncryptedPayload toy_platform
    {| em_id := js "m"; em_senderId := js "alice-id";
       em_iv := js "AAAAAAAAAAAAAAAAAAAAAA==";
       em_encryptedData := js "AAAA"; em_signature := js "AAAA"; em_timestamp := 0 |}
    (getPublicIdentity alice) key1
  = ([EvVerify true; EvDecrypt],
     Ok (match aes_decrypt toy_platform key1 (repeat 0 16) [0; 0; 0] with
         | Some pt => TextDecoder_decode pt
         | None => decrypt_failure_text
         end)).
Proof.
  split; [vm_compute; reflexivity|]. split; [vm_compute; reflexivity|]. split.
  - apply (proj1 (open_decode_failure_and_unchecked_nonce toy_platform
      {| em_id := js "m"; em_senderId := js "alice-id"; em_iv := js "%";
         em_encryptedData := js "AAAA"; em_signature := js "AAAA"; em_timestamp := 0 |}
      (getPublicIdentity alice) key1)).
    right; right; vm_compute; reflexivity.
  - rewrite (proj2 (open_decode_failure_and_unchecked_nonce toy_platform
      {| em_id := js "m"; em_senderId := js "alice-id";
         em_iv := js "AAAAAAAAAAAAAAAAAAAAAA==";
         em_encryptedData := js "AAAA"; em_signature := js "AAAA"; em_timestamp := 0 |}
      (getPublicIdentity alice) key1) [0; 0; 0] [0; 0; 0] (repeat 0 16) toy_pub);
      try (vm_compute; reflexivity).
Defined.

(** C5 (fails): an envelope whose nonce decodes to 16 bytes, not the 12
    AES-GCM nonce bytes, is not rejected by decoding: verification and then
    decryption run. *)
Lemma open_accepts_16_byte_nonce :
  let env := {| em_id := js "m"; em_senderId := js "alice-id";
                em_iv := js "AAAAAAAAAAAAAAAAAAAAAA==";
                em_encryptedData := js "AAAA"; em_signature := js "AAAA";
                em_timestamp := 0 |} in
  base64ToArrayBuffer (em_iv env) = Some (repeat 0 16) /\
  fst (readEncryptedPayload toy_platform env (getPublicIdentity alice) key1)
    = [EvVerify true; EvDecrypt].
Proof. split; vm_compute; reflexivity. Qed.

(** ** Codec round trips *)

Ltac decide_zcmp :=
  repeat match goal with
  | |- context [?x <=? ?y] =>
      first [ rewrite (proj2 (Z.leb_le x y)) by zlia
            | rewrite (proj2 (Z.leb_gt x y)) by zlia
            | destruct (Z.leb_spec x y) ]
  | |- context [?x <? ?y] =>
      first [ rewrite (proj2 (Z.ltb_lt x y)) by zlia
            | rewrite (proj2 (Z.ltb_ge x y)) by zlia
            | destruct (Z.ltb_spec x y) ]
  | |- context [?x =? ?y] =>
      first [ rewrite (proj2 (Z.eqb_eq x y)) by zlia
            | rewrite (proj2 (Z.eqb_neq x y)) by zlia
            | destruct (Z.eqb_spec x y) ]
  end; cbn [andb orb negb].

Lemma list_ind3 (A : Type) (Q : list A -> Prop) :
  Q [] -> (forall a, Q [a]) -> (forall a b, Q [a; b]) ->
  (forall a b c r, Q r -> Q (a :: b :: c :: r)) -> forall l, Q l.
Proof.
  intros H0 H1 H2 H3. fix IH 1. intros [|a [|b [|c r]]];
    [exact H0 | apply H1 | apply H2 | apply H3; apply IH].
Qed.

Lemma b64_char_index : forall i, 0 <= i < 64 -> b64_index (b64_char i) = Some i.
Proof.
  intros i Hi. unfold b64_char.
  destruct (Z.ltb_spec i 26);
    [|destruct (Z.ltb_spec i 52);
      [|destruct (Z.ltb_spec i 62); [|destruct (Z.eqb_spec i 62)]]];
  unfold b64_index, in_range; decide_zcmp; try (f_equal; lia); lia.
Qed.

Lemma b64_char_range : forall i, 0 <= i < 64 ->
  43 <= b64_char i <= 122 /\ b64_char i <> 61.
Proof. intros i Hi. unfold b64_char. decide_zcmp; lia. Qed.

Lemma b64_encode_split : forall bs,
  b64_encode bs = map b64_char (b64_sextets bs) ++ b64_pad bs.
Proof.
  apply list_ind3; try reflexivity.
  intros a b c r IH. cbn [b64_encode b64_sextets b64_pad]. rewrite IH.
  reflexivity.
Qed.

Lemma b64_sextets_range : forall bs, Forall is_byte bs ->
  Forall (fun x => 0 <= x < 64) (b64_sextets bs).
Proof.
  apply (list_ind3 Z (fun bs => Forall is_byte bs ->
    Forall (fun x => 0 <= x < 64) (b64_sextets bs))).
  - constructor.
  - intros a H. inversion_clear H. unfold is_byte in *.
    repeat constructor; zlia.
  - intros a b H. inversion_clear H as [|? ? Ha H']. inversion_clear H'.
    unfold is_byte in *. repeat constructor; zlia.
  - intros a b c r IH H. inversion_clear H as [|? ? Ha H1].
    inversion_clear H1 as [|? ? Hb H2]. inversion_clear H2 as [|? ? Hc Hr].
    unfold is_byte in *. cbn [b64_sextets].
    repeat apply Forall_cons; try zlia. apply IH; exact Hr.
Qed.

Lemma b64_decode_sextets_roundtrip : forall bs, Forall is_byte bs ->
  b64_decode_sextets (b64_sextets bs) = bs.
Proof.
  apply (list_ind3 Z (fun bs => Forall is_byte bs ->
    b64_decode_sextets (b64_sextets bs) = bs)).
  - reflexivity.
  - intros a H. inversion_clear H. unfold is_byte in *. cbn.
    f_equal; zlia.
  - intros a b H. inversion_clear H as [|? ? Ha H']. inversion_clear H'.
    unfold is_byte in *. cbn. f_equal; [zlia|f_equal; zlia].
  - intros a b c r IH H. inversion_clear H as [|? ? Ha H1].
    inversion_clear H1 as [|? ? Hb H2]. inversion_clear H2 as [|? ? Hc Hr].
    unfold is_byte in *. cbn [b64_sextets app b64_decode_sextets].
    rewrite (IH Hr). f_equal; [zlia|f_equal; [zlia|f_equal; zlia]].
Qed.

Lemma b64_shape : forall bs : list Z, exists k,
  (length (b64_sextets bs) = 4 * k /\ b64_pad bs = [])%nat \/
  (length (b64_sextets bs) = 4 * k + 3 /\ b64_pad bs = [61%Z])%nat \/
  (length (b64_sextets bs) = 4 * k + 2 /\ b64_pad bs = [61%Z; 61%Z])%nat.
Proof.
  apply list_ind3.
  - exists 0%nat. left. split; reflexivity.
  - intros a. exists 0%nat. right; right. split; reflexivity.
  - intros a b. exists 0%nat. right; left. split; reflexivity.
  - intros a b c r [k IH]. exists (S k). cbn [b64_sextets b64_pad].
    rewrite length_app. cbn [length].
    destruct IH as [[H1 H2]|[[H1 H2]|[H1 H2]]];
      [left|right; left|right; right]; split; auto; lia.
Qed.

Lemma filter_keep_all {A} (f : A -> bool) (l : list A) :
  Forall (fun x => f x = true) l -> filter f l = l.
Proof.
  induction 1 as [|x l Hx _ IH]; cbn; [reflexivity|]. rewrite Hx, IH. reflexivity.
Qed.

Lemma map_option_b64_index : forall sx, Forall (fun x => 0 <= x < 64) sx ->
  map_option b64_index (map b64_char sx) = Some sx.
Proof.
  induction 1 as [|x sx Hx _ IH]; cbn; [reflexivity|].
  rewrite (b64_char_index x Hx), IH. reflexivity.
Qed.

Lemma strip_padding_body : forall (X pad : jsstr),
  Forall (fun c => c <> 61) X ->
  (pad = [] \/ (pad = [61] /\ X <> []) \/ pad = [61; 61]) ->
  strip_padding (X ++ pad) = X.
Proof.
  intros X pad HX Hpad. unfold strip_padding.
  assert (HrX : Forall (fun c => c <> 61) (rev X)) by (apply Forall_rev; exact HX).
  destruct Hpad as [->|[[-> Hne]| ->]].
  - rewrite app_nil_r. destruct (rev X) as [|a [|b r]] eqn:E; [reflexivity| |].
    + inversion_clear HrX. rewrite (proj2 (Z.eqb_neq a 61)) by assumption.
      reflexivity.
    + inversion_clear HrX. rewrite (proj2 (Z.eqb_neq a 61)) by assumption.
      reflexivity.
  - rewrite rev_app_distr. cbn [rev app].
    destruct (rev X) as [|b r] eqn:E.
    + exfalso. apply Hne. rewrite <- (rev_involutive X), E. reflexivity.
    + inversion_clear HrX. rewrite (proj2 (Z.eqb_neq b 61)) by assumption.
      cbn. change (rev r ++ [b]) with (rev (b :: r)). rewrite <- E.
      apply rev_involutive.
  - rewrite rev_app_distr. cbn [rev app]. cbn. rewrite rev_involutive.
    reflexivity.
Qed.

(** [atob] undoes [btoa] on bytes. *)
Lemma base64_roundtrip : forall bs, Forall is_byte bs ->
  arrayBufferToBase64 bs = Some (b64_encode bs) /\
  base64ToArrayBuffer (b64_encode bs) = Some bs.
Proof.
  intros bs Hbs. split.
  - unfold arrayBufferToBase64, btoa.
    replace (forallb _ bs) with true; [reflexivity|].
    symmetry. apply forallb_forall. intros x Hx.
    rewrite Forall_forall in Hbs. specialize (Hbs x Hx). unfold is_byte in Hbs.
    apply andb_true_intro; split; apply Z.leb_le; lia.
  - pose proof (b64_sextets_range bs Hbs) as Hsx.
    assert (HX : Forall (fun c => 43 <= c <= 122 /\ c <> 61)
                        (map b64_char (b64_sextets bs))).
    { apply Forall_map. eapply Forall_impl; [|exact Hsx].
      intros i Hi. apply b64_char_range; exact Hi. }
    destruct (b64_shape bs) as [k Hk].
    assert (Hpad : Forall (fun c => 43 <= c <= 122) (b64_pad bs)).
    { destruct Hk as [[_ ->]|[[_ ->]|[_ ->]]]; repeat constructor; lia. }
    unfold base64ToArrayBuffer, atob. rewrite b64_encode_split.
    rewrite filter_keep_all.
    2:{ apply Forall_app; split.
        - eapply Forall_impl; [|exact HX]. intros c Hc.
          unfold is_ascii_whitespace. decide_zcmp; reflexivity || lia.
        - eapply Forall_impl; [|exact Hpad]. intros c Hc.
          unfold is_ascii_whitespace. decide_zcmp; reflexivity || lia. }
    assert (Hlen : Nat.modulo (length (map b64_char (b64_sextets bs) ++ b64_pad bs)) 4 = 0%nat).
    { rewrite length_app, length_map.
      destruct Hk as [[H1 ->]|[[H1 ->]|[H1 ->]]]; cbn [length]; rewrite H1;
        [rewrite Nat.add_0_r| replace (4 * k + 3 + 1)%nat with ((k + 1) * 4)%nat by lia
        | replace (4 * k + 2 + 2)%nat with ((k + 1) * 4)%nat by lia];
        [rewrite Nat.mul_comm|..]; apply Nat.Div0.mod_mul. }
    rewrite Hlen. cbn [Nat.eqb].
    rewrite strip_padding_body.
    2:{ eapply Forall_impl; [|exact HX]. intros c Hc; apply Hc. }
    2:{ destruct Hk as [[_ ->]|[[H1 ->]|[_ ->]]]; [left; reflexivity| |right; right; reflexivity].
        right; left. split; [reflexivity|]. intros E.
        apply (f_equal (@length Z)) in E. rewrite length_map in E. cbn in E. lia. }
    assert (Hm : Nat.modulo (length (map b64_char (b64_sextets bs))) 4 <> 1%nat).
    { rewrite length_map. destruct Hk as [[H1 _]|[[H1 _]|[H1 _]]]; rewrite H1;
        rewrite Nat.add_comm || rewrite Nat.mul_comm;
        [rewrite Nat.Div0.mod_mul | ..]; try discriminate;
        rewrite Nat.mul_comm, Nat.Div0.mod_add; cbn; discriminate. }
    destruct (Nat.eqb_spec (Nat.modulo (length (map b64_char (b64_sextets bs))) 4) 1);
      [contradiction|].
    rewrite map_option_b64_index by exact Hsx.
    rewrite b64_decode_sextets_roundtrip by exact Hbs. reflexivity.
Qed.

Ltac decide_lia :=
  repeat match goal with
  | |- context [?x <=? ?y] =>
      first [ rewrite (proj2 (Z.leb_le x y)) by lia
            | rewrite (proj2 (Z.leb_gt x y)) by lia
            | destruct (Z.leb_spec x y) ]
  | |- context [?x <? ?y] =>
      first [ rewrite (proj2 (Z.ltb_lt x y)) by lia
            | rewrite (proj2 (Z.ltb_ge x y)) by lia
            | destruct (Z.ltb_spec x y) ]
  | |- context [?x =? ?y] =>
      first [ rewrite (proj2 (Z.eqb_eq x y)) by lia
            | rewrite (proj2 (Z.eqb_neq x y)) by lia
            | destruct (Z.eqb_spec x y) ]
  end; cbn [andb orb negb].

Ltac split_digit x :=
  let q := fresh "q" in let r := fresh "r" in
  pose proof (Z.div_mod x 64 ltac:(lia));
  pose proof (Z.mod_pos_bound x 64 ltac:(lia));
  set (q := x / 64) in *; set (r := x mod 64) in *; clearbody q r.

Ltac utf8_digits c :=
  replace (c / 262144) with (c / 64 / 64 / 64)
    by (rewrite !Z.div_div by lia; reflexivity);
  replace (c / 4096) with (c / 64 / 64)
    by (rewrite !Z.div_div by lia; reflexivity);
  split_digit c;
  repeat match goal with
  | |- context [?q / 64] => is_var q; split_digit q
  end.

Ltac utf8_decode_head :=
  match goal with
  | |- context [utf8_decode (?b :: ?r)] =>
      let r0 := fresh "r0" in let E := fresh "E" in
      remember r as r0 eqn:E; cbn [utf8_decode]; unfold in_range;
      decide_lia; subst r0; cbn beta iota
  end.

Lemma utf8_encode_cp_bytes : forall c, is_scalar c -> Forall is_byte (utf8_encode_cp c).
Proof.
  intros c [Hc Hs]. unfold utf8_encode_cp, is_byte.
  destruct (Z.ltb_spec c 0x80);
    [|destruct (Z.ltb_spec c 0x800); [|destruct (Z.ltb_spec c 0x10000)]];
  utf8_digits c; repeat constructor; lia.
Qed.

Lemma utf8_decode_encode_cp : forall c rest, is_scalar c ->
  utf8_decode (utf8_encode_cp c ++ rest) = c :: utf8_decode rest.
Proof.
  intros c rest [Hc Hs]. unfold utf8_encode_cp.
  destruct (Z.ltb_spec c 0x80);
    [|destruct (Z.ltb_spec c 0x800); [|destruct (Z.ltb_spec c 0x10000)]];
    utf8_digits c; cbn [app]; utf8_decode_head; unfold in_range; decide_lia;
    try (f_equal; lia); exfalso; lia.
Qed.

Lemma utf8_decode_encode : forall cps, Forall is_scalar cps ->
  utf8_decode (flat_map utf8_encode_cp cps) = cps.
Proof.
  induction 1 as [|c cps Hc _ IH]; [reflexivity|].
  cbn [flat_map]. rewrite utf8_decode_encode_cp by exact Hc. rewrite IH.
  reflexivity.
Qed.

(** Well-formed UTF-16 turns into scalar values and back. *)
Lemma utf16_scalars_roundtrip : forall s, wf_utf16 s = true ->
  Forall is_scalar (utf16_scalars s) /\
  flat_map cp_to_utf16 (utf16_scalars s) = s.
Proof.
  intros s. remember (length s) as n eqn:Hn.
  revert s Hn. induction n as [n IH] using (well_founded_induction lt_wf).
  intros [|u rest] Hn Hwf; [split; [constructor|reflexivity]|].
  cbn [wf_utf16] in Hwf. apply andb_prop in Hwf as [Hu Hwf].
  unfold in_range in Hu. apply andb_prop in Hu as [Hu1 Hu2].
  apply Z.leb_le in Hu1. apply Z.leb_le in Hu2.
  cbn [utf16_scalars].
  destruct (is_high_surrogate u) eqn:Hh.
  - destruct rest as [|u2 rest']; [discriminate|].
    apply andb_prop in Hwf as [Hl Hwf]. rewrite Hl.
    unfold is_high_surrogate, is_low_surrogate, in_range in *.
    apply andb_prop in Hh as [Hh1 Hh2]. apply andb_prop in Hl as [Hl1 Hl2].
    apply Z.leb_le in Hh1, Hh2, Hl1, Hl2.
    destruct (IH (length rest') ltac:(cbn in Hn; lia) rest' eq_refl Hwf) as [IH1 IH2].
    split.
    + constructor; [unfold is_scalar; zlia|exact IH1].
    + cbn [flat_map]. rewrite IH2. unfold cp_to_utf16.
      decide_zcmp; try (exfalso; zlia).
      cbn [app]. f_equal; [zlia|f_equal; zlia].
  - apply andb_prop in Hwf as [Hl Hwf]. apply negb_true_iff in Hl. rewrite Hl.
    unfold is_high_surrogate, is_low_surrogate, in_range in *.
    destruct (IH (length rest) ltac:(cbn in Hn; lia) rest eq_refl Hwf) as [IH1 IH2].
    split.
    + constructor; [|exact IH1]. unfold is_scalar. split; [lia|].
      intros Hr. destruct (Z.leb_spec 0xD800 u); destruct (Z.leb_spec u 0xDBFF);
        cbn in Hh; try discriminate;
        destruct (Z.leb_spec 0xDC00 u); destruct (Z.leb_spec u 0xDFFF);
        cbn in Hl; try discriminate; lia.
    + cbn [flat_map]. rewrite IH2. unfold cp_to_utf16.
      decide_zcmp; first [reflexivity | exfalso; lia].
Qed.

Lemma utf16_scalars_head : forall u rest, wf_utf16 (u :: rest) = true ->
  u <> 0xFEFF -> exists c cs, utf16_scalars (u :: rest) = c :: cs /\ c <> 0xFEFF.
Proof.
  intros u rest Hwf Hu. cbn [wf_utf16] in Hwf. cbn [utf16_scalars].
  apply andb_prop in Hwf as [_ Hwf].
  destruct (is_high_surrogate u) eqn:Hh.
  - destruct rest as [|u2 rest']; [discriminate|].
    apply andb_prop in Hwf as [Hl _].
    rewrite Hl. do 2 eexists; split; [reflexivity|].
    unfold is_high_surrogate, is_low_surrogate, in_range in *.
    apply andb_prop in Hh as [Hh1 Hh2]. apply andb_prop in Hl as [Hl1 Hl2].
    apply Z.leb_le in Hh1, Hh2, Hl1, Hl2. lia.
  - apply andb_prop in Hwf as [Hl _].
    apply negb_true_iff in Hl. rewrite Hl. do 2 eexists; split; [reflexivity|exact Hu].
Qed.

(** [new TextDecoder().decode(new TextEncoder().encode(s))] is [s] for
    well-formed [s] not starting with U+FEFF. *)
Lemma text_roundtrip : forall s, wf_utf16 s = true -> starts_with_bom s = false ->
  TextDecoder_decode (TextEncoder_encode s) = s /\
  Forall is_byte (TextEncoder_encode s).
Proof.
  intros s Hwf Hbom.
  destruct (utf16_scalars_roundtrip s Hwf) as [Hsc Hback].
  unfold TextDecoder_decode, TextEncoder_encode. split.
  - rewrite utf8_decode_encode by exact Hsc.
    destruct s as [|u rest]; [reflexivity|].
    cbn [starts_with_bom] in Hbom. apply Z.eqb_neq in Hbom.
    destruct (utf16_scalars_head u rest Hwf Hbom) as [c [cs [E Hc]]].
    rewrite E. rewrite (proj2 (Z.eqb_neq c 0xFEFF) Hc). rewrite <- E. exact Hback.
  - clear Hback. induction Hsc as [|c cs Hc _ IH]; [constructor|].
    cbn [flat_map]. apply Forall_app. split; [apply utf8_encode_cp_bytes|]; assumption.
Qed.

(** ** Octet strings and integers *)

Lemma fold_OS2IP : forall X acc,
  fold_left (fun acc b => acc * 256 + b) X acc
  = acc * 256 ^ Z.of_nat (length X) + OS2IP X.
Proof.
  unfold OS2IP. induction X as [|b X IH]; intros acc; cbn [fold_left length].
  - cbn. ring.
  - rewrite (IH (acc * 256 + b)), (IH (0 * 256 + b)).
    rewrite Nat2Z.inj_succ, Z.pow_succ_r by lia. ring.
Qed.

Lemma OS2IP_cons : forall b r, OS2IP (b :: r) = b * 256 ^ Z.of_nat (length r) + OS2IP r.
Proof. intros b r. unfold OS2IP at 1. cbn [fold_left]. rewrite fold_OS2IP. ring. Qed.

Lemma OS2IP_snoc : forall X b, OS2IP (X ++ [b]) = OS2IP X * 256 + b.
Proof. intros X b. unfold OS2IP. rewrite fold_left_app. reflexivity. Qed.

Lemma OS2IP_range : forall X, Forall is_byte X -> 0 <= OS2IP X < 256 ^ Z.of_nat (length X).
Proof.
  induction 1 as [|b X Hb _ IH]; [cbn; lia|].
  rewrite OS2IP_cons. cbn [length]. rewrite Nat2Z.inj_succ, Z.pow_succ_r by lia.
  unfold is_byte in Hb.
  assert (0 <= b * 256 ^ Z.of_nat (length X) <= 255 * 256 ^ Z.of_nat (length X))
    by (split; [apply Z.mul_nonneg_nonneg|apply Z.mul_le_mono_nonneg_r]; lia).
  lia.
Qed.

Lemma I2OSP_length : forall k x, length (I2OSP x k) = k.
Proof.
  induction k as [|k IH]; intros x; [reflexivity|].
  cbn [I2OSP]. rewrite length_app, IH. cbn. lia.
Qed.

Lemma I2OSP_bytes : forall k x, Forall is_byte (I2OSP x k).
Proof.
  induction k as [|k IH]; intros x; [constructor|].
  cbn [I2OSP]. apply Forall_app. split; [apply IH|].
  constructor; [|constructor]. unfold is_byte. apply Z.mod_pos_bound. lia.
Qed.

Lemma OS2IP_I2OSP : forall k x, OS2IP (I2OSP x k) = x mod 256 ^ Z.of_nat k.
Proof.
  induction k as [|k IH]; intros x.
  - cbn. rewrite Z.mod_1_r. reflexivity.
  - cbn [I2OSP]. rewrite OS2IP_snoc, IH.
    rewrite Nat2Z.inj_succ, Z.pow_succ_r by lia.
    rewrite Z.rem_mul_r by (try apply Z.pow_pos_nonneg; lia). ring.
Qed.

Lemma I2OSP_OS2IP : forall X, Forall is_byte X -> I2OSP (OS2IP X) (length X) = X.
Proof.
  induction X as [|b X IH] using rev_ind; intros HX; [reflexivity|].
  apply Forall_app in HX as [HX Hb]. inversion Hb as [|? ? Hb' _]; subst.
  unfold is_byte in Hb'.
  rewrite length_app, Nat.add_1_r. cbn [I2OSP]. rewrite OS2IP_snoc.
  replace ((OS2IP X * 256 + b) / 256) with (OS2IP X) by zlia.
  replace ((OS2IP X * 256 + b) mod 256) with b by zlia.
  rewrite IH by exact HX. reflexivity.
Qed.

Lemma OS2IP_inj : forall X Y, Forall is_byte X -> Forall is_byte Y ->
  length X = length Y -> OS2IP X = OS2IP Y -> X = Y.
Proof.
  intros X Y HX HY Hl E.
  rewrite <- (I2OSP_OS2IP X HX), <- (I2OSP_OS2IP Y HY), E, Hl. reflexivity.
Qed.

Lemma lxor_byte : forall a b, is_byte a -> is_byte b -> is_byte (Z.lxor a b).
Proof.
  unfold is_byte. intros a b Ha Hb.
  assert (Hn : 0 <= Z.lxor a b) by (apply Z.lxor_nonneg; lia).
  split; [exact Hn|].
  destruct (Z.eq_dec (Z.lxor a b) 0) as [E|E]; [lia|].
  apply (Z.log2_lt_pow2 _ 8); [lia|].
  assert (Hla : Z.log2 a < 8).
  { destruct (Z.eq_dec a 0) as [->|]; [cbn; lia|].
    apply (Z.log2_lt_pow2 a 8); lia. }
  assert (Hlb : Z.log2 b < 8).
  { destruct (Z.eq_dec b 0) as [->|]; [cbn; lia|].
    apply (Z.log2_lt_pow2 b 8); lia. }
  pose proof (Z.log2_lxor a b ltac:(lia) ltac:(lia)). lia.
Qed.

Lemma xor_bytes_length : forall a b, length (xor_bytes a b) = Nat.min (length a) (length b).
Proof. induction a as [|x a IH]; intros [|y b]; cbn; try rewrite IH; reflexivity. Qed.

Lemma xor_bytes_bytes : forall a b, Forall is_byte a -> Forall is_byte b ->
  Forall is_byte (xor_bytes a b).
Proof.
  induction a as [|x a IH]; intros [|y b] Ha Hb; cbn; try constructor.
  - inversion Ha; inversion Hb; apply lxor_byte; assumption.
  - inversion Ha; inversion Hb; apply IH; assumption.
Qed.

Lemma xor_bytes_app : forall a1 a2 m, (length a1 <= length m)%nat ->
  xor_bytes (a1 ++ a2) m = xor_bytes a1 m ++ xor_bytes a2 (skipn (length a1) m).
Proof.
  induction a1 as [|x a1 IH]; intros a2 m Hl; [reflexivity|].
  destruct m as [|y m]; cbn in Hl; [lia|]. cbn. f_equal. apply IH. lia.
Qed.

Lemma xor_bytes_involutive : forall a m, (length a <= length m)%nat ->
  xor_bytes (xor_bytes a m) m = a.
Proof.
  induction a as [|x a IH]; intros m Hl; [reflexivity|].
  destruct m as [|y m]; cbn in Hl; [lia|]. cbn.
  rewrite Z.lxor_assoc, Z.lxor_nilpotent, Z.lxor_0_r, IH by lia. reflexivity.
Qed.

Lemma app_eq_len : forall {A} (a1 a2 b1 b2 : list A), length a1 = length a2 ->
  a1 ++ b1 = a2 ++ b2 -> a1 = a2 /\ b1 = b2.
Proof.
  induction a1 as [|x a1 IH]; intros [|y a2] b1 b2 Hl E; cbn in *;
    try discriminate; [auto|].
  injection E as -> E. destruct (IH a2 b1 b2 ltac:(lia) E) as [-> ->]. auto.
Qed.

Lemma Forall_firstn_bytes : forall n (l : bytes), Forall is_byte l -> Forall is_byte (firstn n l).
Proof.
  intros n l Hl. revert n. induction Hl as [|x l Hx _ IH]; intros [|n]; cbn;
    constructor; auto.
Qed.

Lemma mod_pow_range : forall b e n, 0 < n -> 0 <= mod_pow b e n < n.
Proof.
  intros b [|p|p] n Hn; cbn.
  - apply Z.mod_pos_bound. exact Hn.
  - destruct p; cbn; apply Z.mod_pos_bound; exact Hn.
  - lia.
Qed.

(** ** RSASSA-PSS at the key size of [RSA_ALGORITHM] *)

Section PSS.

Variable hash : bytes -> bytes.
Hypothesis hash_len : forall x, length (hash x) = hLen.
Hypothesis hash_bytes : forall x, Forall is_byte (hash x).

Lemma flat_map_hash : forall (l : list nat) (f : nat -> bytes),
  length (flat_map (fun c => hash (f c)) l) = (hLen * length l)%nat /\
  Forall is_byte (flat_map (fun c => hash (f c)) l).
Proof.
  induction l as [|c l IH]; intros f; cbn [flat_map length]; [split; [lia|constructor]|].
  destruct (IH f) as [IH1 IH2]. rewrite length_app, hash_len, IH1. split; [lia|].
  apply Forall_app. split; [apply hash_bytes|exact IH2].
Qed.

Lemma MGF1_223 : forall seed,
  length (MGF1 hash seed 223) = 223%nat /\ Forall is_byte (MGF1 hash seed 223).
Proof.
  intros seed. unfold MGF1. change (Nat.div (223 + hLen - 1) hLen) with 7%nat.
  destruct (flat_map_hash (seq 0 7) (fun counter => seed ++ I2OSP (Z.of_nat counter) 4))
    as [H1 H2].
  split; [rewrite length_firstn, H1; reflexivity|].
  apply Forall_firstn_bytes. exact H2.
Qed.

(** EMSA-PSS-ENCODE with [emBits = 2047]: 223 octets of masked [DB], whose
    first octet has its top bit cleared and whose last 32 octets are the salt
    under the mask, then [H] and [0xbc]. *)
Lemma EMSA_PSS_ENCODE_2047 : forall M salt, length salt = 32%nat -> Forall is_byte salt ->
  exists b r,
    EMSA_PSS_ENCODE hash 32 M 2047 salt
      = Some ((b :: r) ++ hash (repeat 0 8 ++ hash M ++ salt) ++ [0xbc]) /\
    0 <= b < 128 /\ length r = 222%nat /\ Forall is_byte r /\
    skipn 190 r = xor_bytes salt
      (skipn 191 (MGF1 hash (hash (repeat 0 8 ++ hash M ++ salt)) 223)).
Proof.
  intros M salt Hl Hs. unfold EMSA_PSS_ENCODE. rewrite firstn_all2 by lia.
  cbv zeta. unfold hLen.
  change (Z.to_nat ((2047 + 7) / 8)) with 256%nat.
  change (256 <? 32 + 32 + 2)%nat with false.
  change (256 - 32 - 32 - 2)%nat with 190%nat.
  change (256 - 32 - 1)%nat with 223%nat.
  change (8 * Z.of_nat 256 - 2047) with 1.
  cbv iota.
  set (H := hash (repeat 0 8 ++ hash M ++ salt)).
  destruct (MGF1_223 H) as [Hml Hmb].
  set (mask := MGF1 hash H 223) in *.
  rewrite (app_assoc (repeat 0 190) [1] salt).
  rewrite xor_bytes_app by (rewrite length_app, repeat_length, Hml; cbn [length]; lia).
  rewrite length_app, repeat_length. cbn [length Nat.add].
  change (repeat 0 190) with (0 :: repeat 0 189).
  destruct mask as [|m0 mrest] eqn:Em; [discriminate|].
  cbn [app xor_bytes clear_leftmost_bits].
  inversion Hmb as [|? ? Hm0 Hmr]; subst.
  exists ((Z.lxor 0 m0) mod 2 ^ (8 - 1)),
    (xor_bytes (repeat 0 189 ++ [1]) mrest ++ xor_bytes salt (skipn 191 (m0 :: mrest))).
  split; [reflexivity|].
  assert (Hx1 : length (xor_bytes (repeat 0 189 ++ [1]) mrest) = 190%nat).
  { rewrite xor_bytes_length, length_app, repeat_length. cbn [length] in Hml |- *. lia. }
  split; [pose proof (Z.mod_pos_bound (Z.lxor 0 m0) (2 ^ (8 - 1)));
          change (2 ^ (8 - 1)) with 128 in *; lia|].
  split; [|split].
  - rewrite length_app, Hx1, xor_bytes_length, length_skipn, Hl.
    cbn [length] in Hml |- *. lia.
  - apply Forall_app. split; apply xor_bytes_bytes; try assumption.
    + apply Forall_app. split; [apply Forall_forall; intros x Hx;
        apply repeat_spec in Hx; subst; unfold is_byte; lia|].
      constructor; [unfold is_byte; lia|constructor].
    + pose proof Hmb as Hmb'. rewrite <- (firstn_skipn 191) in Hmb'.
      apply Forall_app in Hmb'. tauto.
  - rewrite skipn_app, Hx1. cbn [Nat.sub].
    rewrite skipn_all2 by lia. reflexivity.
Qed.

(** Signing with a 2048-bit modulus succeeds: the encoded message is below
    [2^2047 <= n]. *)
Lemma RSASSA_PSS_SIGN_2048 : forall K M salt,
  2 ^ 2047 <= priv_n K < 2 ^ 2048 -> length salt = 32%nat -> Forall is_byte salt ->
  exists EM,
    EMSA_PSS_ENCODE hash 32 M 2047 salt = Some EM /\
    length EM = 256%nat /\ Forall is_byte EM /\ 0 <= OS2IP EM < priv_n K /\
    RSASSA_PSS_SIGN hash 32 K salt M
      = Some (I2OSP (mod_pow (OS2IP EM) (priv_d K) (priv_n K)) 256).
Proof.
  intros K M salt Hn Hl Hs.
  destruct (EMSA_PSS_ENCODE_2047 M salt Hl Hs) as [b [r [E [Hb [Hr [Hrb _]]]]]].
  set (H := hash (repeat 0 8 ++ hash M ++ salt)) in *.
  assert (Hlen : length ((b :: r) ++ H ++ [0xbc]) = 256%nat).
  { rewrite !length_app. cbn [length]. rewrite Hr. unfold H. rewrite hash_len.
    reflexivity. }
  assert (Hbytes : Forall is_byte ((b :: r) ++ H ++ [0xbc])).
  { apply Forall_app. split; [constructor; [unfold is_byte; lia|exact Hrb]|].
    apply Forall_app. split; [apply hash_bytes|constructor; [unfold is_byte; lia|constructor]]. }
  assert (Hrange : 0 <= OS2IP ((b :: r) ++ H ++ [0xbc]) < 2 ^ 2047).
  { cbn [app]. rewrite OS2IP_cons.
    assert (Hrest : Forall is_byte (r ++ H ++ [0xbc])) by (inversion Hbytes; assumption).
    pose proof (OS2IP_range _ Hrest) as Hor.
    replace (length (r ++ H ++ [0xbc])) with 255%nat in *
      by (cbn [app length] in Hlen; lia).
    set (T := 256 ^ Z.of_nat 255) in *.
    assert (HT : 2 ^ 2047 = 128 * T) by (unfold T; vm_compute; reflexivity).
    assert (0 <= b * T <= 127 * T)
      by (split; [apply Z.mul_nonneg_nonneg|apply Z.mul_le_mono_nonneg_r]; lia).
    lia. }
  exists ((b :: r) ++ H ++ [0xbc]). split; [exact E|].
  split; [exact Hlen|]. split; [exact Hbytes|]. split; [lia|].
  unfold RSASSA_PSS_SIGN.
  assert (Hlog : Z.log2 (priv_n K) = 2047) by (apply Z.log2_unique; lia).
  rewrite Hlog. change (2047 + 1 - 1) with 2047. rewrite E.
  unfold RSASP1. rewrite (proj2 (Z.leb_le 0 _)) by lia.
  rewrite (proj2 (Z.ltb_lt _ (priv_n K))) by lia.
  reflexivity.
Qed.

End PSS.

(** ** Seal, then open *)

Lemma signData_ok : forall P K salt data,
  (forall x, length (sha256 P x) = hLen) -> (forall x, Forall is_byte (sha256 P x)) ->
  rsa_priv_ok K -> length salt = 32%nat -> Forall is_byte salt ->
  exists s, signData P K salt data = Some s /\ Forall is_byte s.
Proof.
  intros P K salt data Hlen Hbytes [Hn _] Hl Hs.
  unfold RSA_modulusLength in Hn. change (2048 - 1) with 2047 in Hn.
  destruct (RSASSA_PSS_SIGN_2048 (sha256 P) Hlen Hbytes K data salt Hn Hl Hs)
    as [EM [_ [_ [_ [_ E]]]]].
  eexists. split; [exact E|]. apply I2OSP_bytes.
Qed.

(** C1 (corrected).  Sealing a well-formed string [text] (no lone surrogate)
    that does not begin with U+FEFF, and opening the envelope with the
    sender's public identity and the same AES key, returns [text]: the
    signature verifies and the plaintext decrypts and decodes to [text]. *)
Theorem seal_open_roundtrip :
  forall P I K text iv salt uuid now,
    platform_ok P -> identity_keys_ok P I ->
    Forall is_byte K -> Forall is_byte iv ->
    length salt = 32%nat -> Forall is_byte salt ->
    wf_utf16 text = true -> starts_with_bom text = false ->
    exists env,
      createEncryptedPayload P text I K iv salt uuid now = Ok env /\
      readEncryptedPayload P env (getPublicIdentity I) K
        = ([EvVerify true; EvDecrypt], Ok text).
Proof.
  intros P I K text iv salt uuid now HP [pub [priv [Hpub [Hpriv [Hok Hver]]]]]
    HK Hiv Hl Hs Hwf Hbom.
  destruct (text_roundtrip text Hwf Hbom) as [Htext Htb].
  set (ct := aes_encrypt P K iv (TextEncoder_encode text)).
  assert (Hct : Forall is_byte ct) by (apply (aes_bytes P HP); assumption).
  destruct (signData_ok P priv salt ct (sha_len P HP) (sha_bytes P HP) Hok Hl Hs)
    as [sig [Hsig Hsigb]].
  destruct (base64_roundtrip iv Hiv) as [Eiv Div].
  destruct (base64_roundtrip ct Hct) as [Ect Dct].
  destruct (base64_roundtrip sig Hsigb) as [Esig Dsig].
  unfold createEncryptedPayload. fold ct. rewrite Hpriv, Hsig, Eiv, Ect, Esig.
  eexists. split; [reflexivity|].
  unfold readEncryptedPayload. cbn [em_encryptedData em_signature em_iv].
  rewrite Dct, Dsig, Div.
  unfold importPublicKey. cbn [getPublicIdentity pi_publicKey]. rewrite Hpub.
  unfold verifySignature, lift. cbn [bind ret tell]. rewrite (Hver salt ct sig Hsig).
  unfold decryptMessage. unfold ct. rewrite (aes_correct P HP), Htext.
  reflexivity.
Qed.

(** ** The concrete platform satisfies the assumptions *)

Lemma is_byteb_Forall : forall l, forallb is_byteb l = true -> Forall is_byte l.
Proof.
  induction l as [|b l IH]; intros H; constructor; cbn in H;
    apply andb_prop in H as [Hb Hl]; [|exact (IH Hl)].
  unfold is_byteb in Hb. apply andb_prop in Hb as [H1 H2].
  apply Z.leb_le in H1. apply Z.ltb_lt in H2. unfold is_byte. lia.
Qed.

Lemma toy_platform_ok : platform_ok toy_platform.
Proof.
  constructor.
  - intros k iv m. cbn [aes_decrypt aes_encrypt toy_platform].
    rewrite app_assoc, firstn_app, firstn_all, Nat.sub_diag, firstn_O, app_nil_r.
    destruct (list_eq_dec Z.eq_dec (k ++ iv) (k ++ iv)) as [_|C]; [|contradiction].
    rewrite skipn_app, skipn_all, Nat.sub_diag, skipn_O. reflexivity.
  - intros k iv m Hk Hiv Hm. cbn [aes_encrypt toy_platform].
    apply Forall_app; split; [exact Hk|]. apply Forall_app; split; assumption.
  - intros x. cbn [sha256 toy_platform].
    rewrite length_map, length_firstn, length_app, repeat_length. unfold hLen. lia.
  - intros x. cbn [sha256 toy_platform]. apply Forall_forall. intros y Hy.
    apply in_map_iff in Hy as [z [<- _]]. unfold is_byte. apply Z.mod_pos_bound. lia.
Qed.

Lemma toy_priv_ok : rsa_priv_ok toy_priv.
Proof.
  split; [split; [apply Z.leb_le|apply Z.ltb_lt]; vm_compute; reflexivity|].
  exists 1. intros m Hm. cbn [mod_pow pow_mod_pos priv_n priv_d toy_priv] in *.
  rewrite !(Z.mod_small m toy_n) by lia. reflexivity.
Qed.

Lemma alice_keys_ok : identity_keys_ok toy_platform alice.
Proof.
  exists toy_pub, toy_priv. split; [reflexivity|]. split; [reflexivity|].
  split; [exact toy_priv_ok|]. intros; reflexivity.
Qed.

Lemma seal_open_roundtrip_witness :
  exists env,
    createEncryptedPayload toy_platform (js "hi") alice key1 iv12 salt_a
      (js "m-1") 0 = Ok env /\
    readEncryptedPayload toy_platform env (getPublicIdentity alice) key1
      = ([EvVerify true; EvDecrypt], Ok (js "hi")).
Proof.
  apply (seal_open_roundtrip toy_platform alice key1 (js "hi") iv12 salt_a
           (js "m-1") 0 toy_platform_ok alice_keys_ok);
    try (apply is_byteb_Forall); vm_compute; reflexivity.
Defined.

(** C1 counterexample: a lone surrogate comes back as U+FFFD, and a leading
    U+FEFF is dropped, although seal and open both succeed. *)
Lemma seal_open_not_identity :
  match createEncryptedPayload toy_platform [0xD800] alice key1 iv12 salt_a
          (js "m-1") 0 with
  | Ok env => readEncryptedPayload toy_platform env (getPublicIdentity alice) key1
              = ([EvVerify true; EvDecrypt], Ok [0xFFFD])
  | Throw _ => False
  end /\
  match createEncryptedPayload toy_platform [0xFEFF; 0x41] alice key1 iv12 salt_a
          (js "m-2") 0 with
  | Ok env => readEncryptedPayload toy_platform env (getPublicIdentity alice) key1
              = ([EvVerify true; EvDecrypt], Ok [0x41])
  | Throw _ => False
  end.
Proof. split; vm_compute; reflexivity. Qed.

(** ** Wrong session key *)

Lemma utf16_scalars_scalar : forall s, Forall (fun u => 0 <= u <= 0xFFFF) s ->
  Forall is_scalar (utf16_scalars s).
Proof.
  intros s. remember (length s) as n eqn:Hn.
  revert s Hn. induction n as [n IH] using (well_founded_induction lt_wf).
  intros [|u rest] Hn Hs; [constructor|].
  inversion Hs as [|? ? Hu Hrest]; subst.
  assert (Hfffd : is_scalar 0xFFFD) by (unfold is_scalar; lia).
  cbn [utf16_scalars].
  destruct (is_high_surrogate u) eqn:Hh.
  - destruct rest as [|u2 rest']; [constructor; [exact Hfffd|constructor]|].
    inversion Hrest as [|? ? Hu2 Hrest']; subst.
    destruct (is_low_surrogate u2) eqn:Hl.
    + constructor; [|apply (IH (length rest')); cbn; auto].
      unfold is_high_surrogate, is_low_surrogate, in_range in *.
      apply andb_prop in Hh as [Hh1 Hh2]. apply andb_prop in Hl as [Hl1 Hl2].
      apply Z.leb_le in Hh1, Hh2, Hl1, Hl2. unfold is_scalar. lia.
    + constructor; [exact Hfffd|apply (IH (length (u2 :: rest'))); cbn; auto].
  - destruct (is_low_surrogate u) eqn:Hl.
    + constructor; [exact Hfffd|apply (IH (length rest)); cbn; auto].
    + constructor; [|apply (IH (length rest)); cbn; auto].
      unfold is_high_surrogate, is_low_surrogate, in_range in *.
      unfold is_scalar. split; [lia|]. intros Hr.
      destruct (Z.leb_spec 0xD800 u); destruct (Z.leb_spec u 0xDBFF);
        cbn in Hh; try discriminate;
        destruct (Z.leb_spec 0xDC00 u); destruct (Z.leb_spec u 0xDFFF);
        cbn in Hl; try discriminate; lia.
Qed.

Lemma TextEncoder_encode_bytes : forall s, Forall (fun u => 0 <= u <= 0xFFFF) s ->
  Forall is_byte (TextEncoder_encode s).
Proof.
  intros s Hs. unfold TextEncoder_encode.
  induction (utf16_scalars_scalar s Hs) as [|c cs Hc _ IH]; [constructor|].
  cbn [flat_map]. apply Forall_app. split; [apply utf8_encode_cp_bytes|]; assumption.
Qed.

Lemma decrypt_failure_text_nonempty : decrypt_failure_text <> [].
Proof. discriminate. Qed.

(** C4 (corrected).  Opening with a key [K2] under which AES-GCM rejects the
    ciphertext sealed under [K1] does not fail: the signature verifies, the
    decryption is attempted, and [open] returns the fixed warning text of
    [decryptMessage]'s [catch], which is not the empty string. *)
Theorem open_wrong_key_returns_warning :
  forall P I K1 K2 text iv salt uuid now,
    platform_ok P -> identity_keys_ok P I ->
    Forall is_byte K1 -> Forall is_byte iv ->
    length salt = 32%nat -> Forall is_byte salt ->
    Forall (fun u => 0 <= u <= 0xFFFF) text ->
    aes_decrypt P K2 iv (aes_encrypt P K1 iv (TextEncoder_encode text)) = None ->
    exists env,
      createEncryptedPayload P text I K1 iv salt uuid now = Ok env /\
      readEncryptedPayload P env (getPublicIdentity I) K2
        = ([EvVerify true; EvDecrypt], Ok decrypt_failure_text) /\
      decrypt_failure_text <> [].
Proof.
  intros P I K1 K2 text iv salt uuid now HP [pub [priv [Hpub [Hpriv [Hok Hver]]]]]
    HK Hiv Hl Hs Htext Hdec.
  pose proof (TextEncoder_encode_bytes text Htext) as Htb.
  set (ct := aes_encrypt P K1 iv (TextEncoder_encode text)) in *.
  assert (Hct : Forall is_byte ct) by (apply (aes_bytes P HP); assumption).
  destruct (signData_ok P priv salt ct (sha_len P HP) (sha_bytes P HP) Hok Hl Hs)
    as [sig [Hsig Hsigb]].
  destruct (base64_roundtrip iv Hiv) as [Eiv Div].
  destruct (base64_roundtrip ct Hct) as [Ect Dct].
  destruct (base64_roundtrip sig Hsigb) as [Esig Dsig].
  unfold createEncryptedPayload. fold ct. rewrite Hpriv, Hsig, Eiv, Ect, Esig.
  eexists. split; [reflexivity|]. split; [|exact decrypt_failure_text_nonempty].
  unfold readEncryptedPayload. cbn [em_encryptedData em_signature em_iv].
  rewrite Dct, Dsig, Div.
  unfold importPublicKey. cbn [getPublicIdentity pi_publicKey]. rewrite Hpub.
  unfold verifySignature, lift. cbn [bind ret tell]. rewrite (Hver salt ct sig Hsig).
  unfold decryptMessage. rewrite Hdec. reflexivity.
Qed.

Lemma open_wrong_key_returns_warning_witness :
  exists env,
    createEncryptedPayload toy_platform (js "hi") alice key1 iv12 salt_a
      (js "m-1") 0 = Ok env /\
    readEncryptedPayload toy_platform env (getPublicIdentity alice) key2
      = ([EvVerify true; EvDecrypt], Ok decrypt_failure_text) /\
    decrypt_failure_text <> [].
Proof.
  apply (open_wrong_key_returns_warning toy_platform alice key1 key2 (js "hi")
           iv12 salt_a (js "m-1") 0 toy_platform_ok alice_keys_ok);
    try (apply is_byteb_Forall); try (apply Forall_forall; intros u Hu;
      vm_compute in Hu; repeat (destruct Hu as [<-|Hu]; [lia|]); contradiction);
    vm_compute; reflexivity.
Defined.

(** C4 counterexample: with the wrong key [open] resolves (no error) to the
    warning text, the very value it resolves to when the sender really sent
    that text under the right key. *)
Lemma open_wrong_key_indistinguishable :
  match createEncryptedPayload toy_platform (js "hi") alice key1 iv12 salt_a
          (js "m-1") 0 with
  | Ok env => readEncryptedPayload toy_platform env (getPublicIdentity alice) key2
              = ([EvVerify true; EvDecrypt], Ok decrypt_failure_text)
  | Throw _ => False
  end /\
  match createEncryptedPayload toy_platform decrypt_failure_text alice key1 iv12
          salt_a (js "m-2") 0 with
  | Ok env => readEncryptedPayload toy_platform env (getPublicIdentity alice) key1
              = ([EvVerify true; EvDecrypt], Ok decrypt_failure_text)
  | Throw _ => False
  end.
Proof. split; vm_compute; reflexivity. Qed.

(** ** Decoding the decrypted bytes *)

(** C6 (corrected).  Once the three fields decode, the key imports, the
    signature verifies and AES-GCM yields [pt], [open] resolves to
    [TextDecoder_decode pt]: it never fails on ill-formed UTF-8 (each bad
    sequence becomes U+FFFD, a leading U+FEFF is dropped), and when [pt] is
    the encoding of a well-formed string without a leading U+FEFF, it
    resolves to that string. *)
Theorem open_returns_decoded_text :
  forall P env peer K ed sig iv pk pt,
    base64ToArrayBuffer (em_encryptedData env) = Some ed ->
    base64ToArrayBuffer (em_signature env) = Some sig ->
    base64ToArrayBuffer (em_iv env) = Some iv ->
    import_public_jwk P (pi_publicKey peer) = Some pk ->
    rsa_pss_verify P pk sig ed = true ->
    aes_decrypt P K iv ed = Some pt ->
    readEncryptedPayload P env peer K
      = ([EvVerify true; EvDecrypt], Ok (TextDecoder_decode pt)) /\
    (forall s, pt = TextEncoder_encode s -> wf_utf16 s = true ->
       starts_with_bom s = false -> TextDecoder_decode pt = s).
Proof.
  intros P env peer K ed sig iv pk pt Hed Hsig Hiv Hpk Hver Hdec. split.
  - unfold readEncryptedPayload. rewrite Hed, Hsig, Hiv.
    unfold importPublicKey. rewrite Hpk.
    unfold verifySignature, lift. cbn [bind ret tell]. rewrite Hver.
    unfold decryptMessage. rewrite Hdec. reflexivity.
  - intros s -> Hwf Hbom. apply (text_roundtrip s Hwf Hbom).
Qed.

Lemma open_returns_decoded_text_witness :
  let env := {| em_id := js "m-3"; em_senderId := js "alice-id";
                em_iv := b64_encode iv12;
                em_encryptedData := b64_encode (key1 ++ iv12 ++ [0x68; 0x69]);
                em_signature := js "AAAA"; em_timestamp := 0 |} in
  readEncryptedPayload toy_platform env (getPublicIdentity alice) key1
    = ([EvVerify true; EvDecrypt], Ok (TextDecoder_decode [0x68; 0x69])) /\
  (forall s, [0x68; 0x69] = TextEncoder_encode s -> wf_utf16 s = true ->
     starts_with_bom s = false -> TextDecoder_decode [0x68; 0x69] = s).
Proof.
  intros env.
  apply (open_returns_decoded_text toy_platform env (getPublicIdentity alice) key1
           (key1 ++ iv12 ++ [0x68; 0x69]) [0; 0; 0] iv12 toy_pub);
    vm_compute; reflexivity.
Defined.

(** C6 counterexample: decrypted bytes that are not UTF-8 ([0xFF]) do not
    make [open] fail; it resolves to U+FFFD. *)
Lemma open_invalid_utf8_replaced :
  let env := {| em_id := js "m-3"; em_senderId := js "alice-id";
                em_iv := b64_encode iv12;
                em_encryptedData := b64_encode (key1 ++ iv12 ++ [0xFF]);
                em_signature := js "AAAA"; em_timestamp := 0 |} in
  readEncryptedPayload toy_platform env (getPublicIdentity alice) key1
    = ([EvVerify true; EvDecrypt], Ok [0xFFFD]).
Proof. vm_compute. reflexivity. Qed.

(** ** Public-key fingerprints *)




(** [b.toString(16).padStart(2, '0')], upper-cased, is the two upper-case hex
    digits of the byte [b]. *)
Lemma upper_hex_of_byte : forall b, is_byte b ->
  toUpperCase (padStart2 (toString16 b)) = hex_upper_byte b.
Proof.
  unfold is_byte. intros b Hb.
  unfold toString16, padStart2, hex_upper_byte, toUpperCase, hex_digit_lower,
    hex_digit_upper, in_range.
  destruct (Z.ltb_spec b 16).
  - replace (b / 16) with 0 by zlia. replace (b mod 16) with b by zlia.
    cbn [length Nat.sub repeat app map].
    destruct (Z.ltb_spec b 10); decide_lia;
      first [exfalso; lia | apply (f_equal2 cons); [lia|apply (f_equal2 cons); [lia|reflexivity]]].
  - pose proof (Z.mod_pos_bound b 16 ltac:(lia)).
    assert (0 <= b / 16 < 16) by zlia.
    cbn [length Nat.sub repeat app map].
    destruct (Z.ltb_spec (b / 16) 10); destruct (Z.ltb_spec (b mod 16) 10);
      decide_lia; first [exfalso; lia | apply (f_equal2 cons); [lia|apply (f_equal2 cons); [lia|reflexivity]]].
Qed.

Lemma fingerprint_prefix : forall d n, Forall is_byte d ->
  toUpperCase (firstn (2 * n) (flat_map (fun b => padStart2 (toString16 b)) d))
  = flat_map hex_upper_byte (firstn n d).
Proof.
  induction d as [|b d IH]; intros n Hd.
  - rewrite !firstn_nil. reflexivity.
  - inversion Hd as [|? ? Hb Hd']; subst.
    destruct n as [|n]; [reflexivity|].
    replace (2 * S n)%nat with (2 + 2 * n)%nat by lia.
    cbn [flat_map]. rewrite firstn_app.
    assert (Hl : length (padStart2 (toString16 b)) = 2%nat).
    { unfold padStart2, toString16. destruct (b <? 16); reflexivity. }
    rewrite Hl, firstn_all2 by lia. replace (2 + 2 * n - 2)%nat with (2 * n)%nat by lia.
    unfold toUpperCase in *. rewrite map_app, IH by exact Hd'.
    fold (toUpperCase (padStart2 (toString16 b))). rewrite upper_hex_of_byte by exact Hb.
    reflexivity.
Qed.






(** The FIPS 180-4 examples: "abc", the empty message, and a two-block
    message. *)
Lemma SHA256_test_vectors :
  hexs (SHA256 (TextEncoder_encode (js "abc"))) =
    js "ba7816bf8f01cfea414140de5dae2223b00361a396177a9cb410ff61f20015ad" /\
  hexs (SHA256 []) =
    js "e3b0c44298fc1c149afbf4c8996fb92427ae41e4649b934ca495991b7852b855" /\
  hexs (SHA256 (TextEncoder_encode
          (js "abcdbcdecdefdefgefghfghighijhijkijkljklmklmnlmnomnopnopq"))) =
    js "248d6a61d20638b8e5c026930c3e6039a33ce45964ff2167f6ecedd419db06c1".
Proof. repeat split; vm_compute; reflexivity. Qed.






(** ** Salted signatures *)

(** C8.  Signing the same data with the same 2048-bit key under two
    different 32-byte salts (the signer's fresh randomness) gives two
    different signatures: the salt is recoverable from the encoded message,
    which RSA and I2OSP transport injectively. *)
Theorem signData_salted :
  forall P K data salt1 salt2,
    (forall x, length (sha256 P x) = hLen) ->
    (forall x, Forall is_byte (sha256 P x)) ->
    rsa_priv_ok K ->
    length salt1 = 32%nat -> Forall is_byte salt1 ->
    length salt2 = 32%nat -> Forall is_byte salt2 ->
    salt1 <> salt2 ->
    exists s1 s2,
      signData P K salt1 data = Some s1 /\ signData P K salt2 data = Some s2 /\
      s1 <> s2.
Proof.
  intros P K data salt1 salt2 Hlen Hbytes [Hn [e He]] Hl1 Hs1 Hl2 Hs2 Hne.
  unfold RSA_modulusLength in Hn. change (2048 - 1) with 2047 in Hn.
  unfold signData, SIGN_ALGORITHM_saltLength.
  destruct (RSASSA_PSS_SIGN_2048 (sha256 P) Hlen Hbytes K data salt1 Hn Hl1 Hs1)
    as [EM1 [E1 [L1 [B1 [R1 S1]]]]].
  destruct (RSASSA_PSS_SIGN_2048 (sha256 P) Hlen Hbytes K data salt2 Hn Hl2 Hs2)
    as [EM2 [E2 [L2 [B2 [R2 S2]]]]].
  rewrite S1, S2. do 2 eexists. split; [reflexivity|]. split; [reflexivity|].
  intros Heq. apply (f_equal OS2IP) in Heq. rewrite !OS2IP_I2OSP in Heq.
  assert (Hpow : 256 ^ Z.of_nat 256 = 2 ^ 2048) by (vm_compute; reflexivity).
  pose proof (mod_pow_range (OS2IP EM1) (priv_d K) (priv_n K) ltac:(lia)).
  pose proof (mod_pow_range (OS2IP EM2) (priv_d K) (priv_n K) ltac:(lia)).
  rewrite !Hpow, !Z.mod_small in Heq by lia.
  apply (f_equal (fun x => mod_pow x e (priv_n K))) in Heq.
  rewrite !He in Heq by lia.
  apply OS2IP_inj in Heq; [|assumption|assumption|congruence].
  destruct (EMSA_PSS_ENCODE_2047 (sha256 P) Hlen Hbytes data salt1 Hl1 Hs1)
    as [b1 [r1 [F1 [_ [Hr1 [_ X1]]]]]].
  destruct (EMSA_PSS_ENCODE_2047 (sha256 P) Hlen Hbytes data salt2 Hl2 Hs2)
    as [b2 [r2 [F2 [_ [Hr2 [_ X2]]]]]].
  set (H1 := sha256 P (repeat 0 8 ++ sha256 P data ++ salt1)) in *.
  set (H2 := sha256 P (repeat 0 8 ++ sha256 P data ++ salt2)) in *.
  rewrite E1 in F1. rewrite E2 in F2.
  assert (Heq' : (b1 :: r1) ++ H1 ++ [0xbc] = (b2 :: r2) ++ H2 ++ [0xbc]) by congruence.
  clear Heq F1 F2.
  apply app_eq_len in Heq' as [Hbr HH]; [|cbn [length]; rewrite Hr1, Hr2; reflexivity].
  apply app_inj_tail in HH as [HH _].
  assert (Er : r1 = r2) by congruence.
  rewrite Er in X1. rewrite X1, HH in X2.
  destruct (MGF1_223 (sha256 P) Hlen Hbytes H2) as [Hml _].
  apply Hne.
  rewrite <- (xor_bytes_involutive salt1 (skipn 191 (MGF1 (sha256 P) H2 223))),
          <- (xor_bytes_involutive salt2 (skipn 191 (MGF1 (sha256 P) H2 223))),
          X2; [reflexivity| |]; rewrite length_skipn, Hml; lia.
Qed.

Lemma signData_salted_witness :
  exists s1 s2,
    signData toy_platform toy_priv salt_a key1 = Some s1 /\
    signData toy_platform toy_priv salt_b key1 = Some s2 /\ s1 <> s2.
Proof.
  apply (signData_salted toy_platform toy_priv key1 salt_a salt_b
           (sha_len _ toy_platform_ok) (sha_bytes _ toy_platform_ok) toy_priv_ok);
    try (apply is_byteb_Forall; vm_compute; reflexivity);
    try (vm_compute; reflexivity).
  intros E. vm_compute in E. discriminate E.
Defined.

(** * Further properties of the code *)


Lemma b64_encode_length : forall bs,
  length (b64_encode bs) = (4 * ((length bs + 2) / 3))%nat.
Proof.
  apply list_ind3; try reflexivity.
  intros a b c r IH. cbn [b64_encode length app]. rewrite IH.
  replace (S (S (S (length r))) + 2)%nat with ((length r + 2) + 1 * 3)%nat by lia.
  rewrite Nat.div_add by lia. lia.
Qed.

Lemma b64_encode_alphabet : forall bs, Forall is_byte bs ->
  Forall (fun c => b64_index c <> None \/ c = 61) (b64_encode bs).
Proof.
  intros bs Hbs. rewrite b64_encode_split. apply Forall_app. split.
  - apply Forall_map. eapply Forall_impl; [|exact (b64_sextets_range bs Hbs)].
    intros i Hi. left. rewrite (b64_char_index i Hi). discriminate.
  - destruct (b64_shape bs) as [k [[_ ->]|[[_ ->]|[_ ->]]]]; repeat constructor; right; reflexivity.
Qed.

(** X1 (arrayBufferToBase64, base64ToArrayBuffer): every byte array is encoded to a string of length 4*ceil(n/3) over the base64 alphabet and '=', and decoding that string gives the bytes back. *)
Theorem base64_codec_roundtrip : forall bs, Forall is_byte bs ->
  exists s, arrayBufferToBase64 bs = Some s /\
    length s = (4 * ((length bs + 2) / 3))%nat /\
    Forall (fun c => b64_index c <> None \/ c = 61) s /\
    base64ToArrayBuffer s = Some bs.
Proof.
  intros bs Hbs. destruct (base64_roundtrip bs Hbs) as [E D].
  exists (b64_encode bs). split; [exact E|]. split; [apply b64_encode_length|].
  split; [apply b64_encode_alphabet; exact Hbs|exact D].
Qed.

(** Witness of X1: four bytes including 0 and 255. *)
Lemma base64_codec_roundtrip_witness :
  exists s, arrayBufferToBase64 [0; 255; 7; 128] = Some s /\
    length s = (4 * ((length [0; 255; 7; 128] + 2) / 3))%nat /\
    Forall (fun c => b64_index c <> None \/ c = 61) s /\
    base64ToArrayBuffer s = Some [0; 255; 7; 128].
Proof.
  apply base64_codec_roundtrip. apply is_byteb_Forall. vm_compute. reflexivity.
Defined.

Lemma atob_skip_whitespace : forall s1 s2 w, is_ascii_whitespace w = true ->
  base64ToArrayBuffer (s1 ++ w :: s2) = base64ToArrayBuffer (s1 ++ s2).
Proof.
  intros s1 s2 w Hw. unfold base64ToArrayBuffer, atob.
  rewrite !filter_app. cbn [filter]. rewrite Hw. reflexivity.
Qed.

Lemma filter_map_b64_char : forall sx, Forall (fun x => 0 <= x < 64) sx ->
  filter (fun c => negb (c =? 61)) (map b64_char sx) = map b64_char sx.
Proof.
  intros sx H. apply filter_keep_all. apply Forall_map.
  eapply Forall_impl; [|exact H]. intros i Hi.
  destruct (b64_char_range i Hi) as [_ Hn]. rewrite (proj2 (Z.eqb_neq _ _) Hn).
  reflexivity.
Qed.

(** X2 (base64ToArrayBuffer): decoding ignores ASCII whitespace anywhere in the input, and accepts an encoding whose '=' padding has been removed. *)
Theorem atob_forgiving : forall bs, Forall is_byte bs ->
  (forall s1 s2 w, is_ascii_whitespace w = true ->
     base64ToArrayBuffer (s1 ++ w :: s2) = base64ToArrayBuffer (s1 ++ s2)) /\
  base64ToArrayBuffer (filter (fun c => negb (c =? 61)) (b64_encode bs)) = Some bs.
Proof.
  intros bs Hbs. split; [exact atob_skip_whitespace|].
  pose proof (b64_sextets_range bs Hbs) as Hsx.
  rewrite b64_encode_split, filter_app, filter_map_b64_char by exact Hsx.
  replace (filter _ (b64_pad bs)) with (@nil Z)
    by (destruct (b64_shape bs) as [k [[_ ->]|[[_ ->]|[_ ->]]]]; reflexivity).
  rewrite app_nil_r.
  assert (HX : Forall (fun c => 43 <= c <= 122 /\ c <> 61)
                      (map b64_char (b64_sextets bs))).
  { apply Forall_map. eapply Forall_impl; [|exact Hsx].
    intros i Hi. apply b64_char_range; exact Hi. }
  unfold base64ToArrayBuffer, atob. rewrite filter_keep_all.
  2:{ eapply Forall_impl; [|exact HX]. intros c Hc.
      unfold is_ascii_whitespace. decide_zcmp; reflexivity || lia. }
  destruct (b64_shape bs) as [k Hk].
  assert (Hm : Nat.modulo (length (map b64_char (b64_sextets bs))) 4 <> 1%nat).
  { rewrite length_map. destruct Hk as [[H1 _]|[[H1 _]|[H1 _]]]; rewrite H1;
      rewrite Nat.add_comm || rewrite Nat.mul_comm;
      [rewrite Nat.Div0.mod_mul | ..]; try discriminate;
      rewrite Nat.mul_comm, Nat.Div0.mod_add; cbn; discriminate. }
  assert (Hs : (if (Nat.modulo (length (map b64_char (b64_sextets bs))) 4 =? 0)%nat
                then strip_padding (map b64_char (b64_sextets bs))
                else map b64_char (b64_sextets bs)) = map b64_char (b64_sextets bs)).
  { destruct (_ =? 0)%nat; [|reflexivity].
    rewrite <- (app_nil_r (map b64_char (b64_sextets bs))) at 1.
    apply strip_padding_body; [|left; reflexivity].
    eapply Forall_impl; [|exact HX]. intros c Hc; apply Hc. }
  rewrite Hs.
  destruct (Nat.eqb_spec (Nat.modulo (length (map b64_char (b64_sextets bs))) 4) 1);
    [contradiction|].
  rewrite map_option_b64_index by exact Hsx.
  rewrite b64_decode_sextets_roundtrip by exact Hbs. reflexivity.
Qed.

Lemma strip_padding_keeps : forall d c, In c d -> c <> 61 -> In c (strip_padding d).
Proof.
  intros d c Hin Hc. unfold strip_padding.
  apply in_rev in Hin.
  destruct (rev d) as [|a [|b r]] eqn:E; [destruct Hin| |].
  - destruct (Z.eqb_spec a 61); [|rewrite <- (rev_involutive d), E; exact Hin].
    subst. destruct Hin as [<-|[]]. contradiction.
  - destruct (Z.eqb_spec a 61) as [Ha|Ha]; destruct (Z.eqb_spec b 61) as [Hb|Hb];
      cbn [andb];
      try (rewrite <- (rev_involutive d), E; apply (proj1 (in_rev _ c)); cbn; exact Hin).
    + apply (proj1 (in_rev r c)). destruct Hin as [<-|[<-|H]]; [contradiction|contradiction|exact H].
    + apply (proj1 (in_rev (b :: r) c)). destruct Hin as [<-|H]; [contradiction|exact H].
Qed.

Lemma map_option_none {A B} (f : A -> option B) : forall l x,
  In x l -> f x = None -> map_option f l = None.
Proof.
  induction l as [|y l IH]; intros x Hin Hx; [destruct Hin|].
  cbn. destruct Hin as [<-|Hin].
  - rewrite Hx. reflexivity.
  - rewrite (IH x Hin Hx). destruct (f y); reflexivity.
Qed.

(** X3 (base64ToArrayBuffer): decoding fails on any character outside the base64 alphabet, '=' and ASCII whitespace, and on any input whose non-whitespace length is 1 modulo 4. *)
Theorem atob_rejects : forall s,
  (forall c, In c s -> b64_index c = None -> c <> 61 ->
     is_ascii_whitespace c = false -> base64ToArrayBuffer s = None) /\
  (Nat.modulo (length (filter (fun c => negb (is_ascii_whitespace c)) s)) 4 = 1%nat ->
     base64ToArrayBuffer s = None).
Proof.
  intros s. unfold base64ToArrayBuffer, atob. cbv zeta.
  set (d := filter (fun c => negb (is_ascii_whitespace c)) s). split.
  - intros c Hin Hidx Hc Hw.
    assert (Hd : In c d) by (apply filter_In; rewrite Hw; auto).
    set (d' := if (Nat.modulo (length d) 4 =? 0)%nat then strip_padding d else d).
    assert (Hd' : In c d') by (unfold d'; destruct (_ =? 0)%nat; [apply strip_padding_keeps|]; assumption).
    destruct (_ =? 1)%nat; [reflexivity|].
    rewrite (map_option_none b64_index d' c Hd' Hidx). reflexivity.
  - intros H1. rewrite H1. cbn [Nat.eqb]. rewrite H1. reflexivity.
Qed.

Lemma in_range_spec : forall lo hi b, in_range lo hi b = true <-> lo <= b <= hi.
Proof.
  intros. unfold in_range. rewrite andb_true_iff, !Z.leb_le. reflexivity.
Qed.

Ltac bool_facts :=
  repeat match goal with
  | H : in_range _ _ _ = true |- _ => apply in_range_spec in H
  | H : in_range _ _ _ = false |- _ =>
      let H' := fresh in assert (H' := H); rewrite <- not_true_iff_false, in_range_spec in H'; clear H
  | H : (_ <=? _) = true |- _ => apply Z.leb_le in H
  | H : (_ <=? _) = false |- _ => apply Z.leb_gt in H
  | H : (_ =? _) = true |- _ => apply Z.eqb_eq in H
  | H : (_ =? _) = false |- _ => apply Z.eqb_neq in H
  end.

Lemma utf8_decode_scalars : forall n bs, (length bs <= n)%nat -> Forall is_byte bs ->
  Forall is_scalar (utf8_decode bs).
Proof.
  induction n as [|n IH]; intros bs Hn Hbs.
  { destruct bs; [constructor|]. cbn [length] in Hn. exfalso. apply (Nat.nle_succ_0 _ Hn). }
  destruct bs as [|b0 r0]; [constructor|].
  cbn [length] in Hn.
  assert (IH0 : forall l, (length l <= length r0)%nat -> Forall is_byte l ->
                Forall is_scalar (utf8_decode l)) by (intros; apply IH; [lia|assumption]).
  clear IH.
  inversion_clear Hbs as [|? ? Hb0 Hr0].
  cbn [utf8_decode].
  repeat match goal with
  | |- context [match ?l with [] => _ | _ :: _ => _ end] =>
      is_var l; let b := fresh "b" in let r := fresh "r" in
      destruct l as [|b r];
      [|match goal with H : Forall is_byte (b :: r) |- _ =>
          inversion_clear H end]
  | |- context [if ?c then _ else _] => destruct c eqn:?
  end;
  repeat match goal with
  | H : context [if ?c then _ else _] |- _ => destruct c eqn:?
  end;
  bool_facts; unfold is_byte in *;
  repeat match goal with
  | |- Forall _ [] => constructor
  | |- Forall _ (_ :: _) => constructor
  | |- is_scalar _ => unfold is_scalar; lia
  | |- Forall is_scalar (utf8_decode _) =>
      apply IH0; [cbn [length] in *; lia|
                  repeat constructor; unfold is_byte; try lia; assumption]
  end.
Qed.

Lemma wf_cp_to_utf16_app : forall c rest, is_scalar c ->
  wf_utf16 (cp_to_utf16 c ++ rest) = wf_utf16 rest.
Proof.
  intros c rest [H1 H2]. unfold cp_to_utf16.
  destruct (Z.ltb_spec c 0x10000); cbn [app wf_utf16];
    unfold is_high_surrogate, is_low_surrogate, in_range; decide_zcmp;
    try reflexivity; exfalso; zlia.
Qed.

Lemma wf_flat_map_cp : forall cps, Forall is_scalar cps ->
  wf_utf16 (flat_map cp_to_utf16 cps) = true.
Proof.
  induction 1 as [|c cps Hc _ IH]; [reflexivity|].
  cbn [flat_map]. rewrite wf_cp_to_utf16_app by exact Hc. exact IH.
Qed.

Lemma TextDecoder_decode_wf : forall bs, Forall is_byte bs ->
  wf_utf16 (TextDecoder_decode bs) = true.
Proof.
  intros bs Hbs. unfold TextDecoder_decode. apply wf_flat_map_cp.
  pose proof (utf8_decode_scalars (length bs) bs (le_n _) Hbs) as H.
  destruct (utf8_decode bs) as [|c r]; [constructor|].
  destruct (c =? 0xFEFF); [inversion H|]; assumption.
Qed.

Lemma b64_index_range : forall c i, b64_index c = Some i -> 0 <= i < 64.
Proof.
  intros c i H. unfold b64_index in H.
  repeat match goal with
  | H : context [if ?b then _ else _] |- _ => destruct b eqn:?
  end; bool_facts; try discriminate; injection H as <-; lia.
Qed.

Lemma map_option_b64_range : forall l sx, map_option b64_index l = Some sx ->
  Forall (fun x => 0 <= x < 64) sx.
Proof.
  induction l as [|c l IH]; intros sx H; cbn in H.
  - injection H as <-. constructor.
  - destruct (b64_index c) as [i|] eqn:Ei; [|discriminate].
    destruct (map_option b64_index l) as [ys|]; [|discriminate].
    injection H as <-. constructor; [exact (b64_index_range c i Ei)|exact (IH ys eq_refl)].
Qed.

Lemma b64_decode_sextets_bytes : forall sx, Forall (fun x => 0 <= x < 64) sx ->
  Forall is_byte (b64_decode_sextets sx).
Proof.
  fix IH 1. intros [|a [|b [|c [|d r]]]] H; cbn [b64_decode_sextets];
    repeat match goal with H : Forall _ (_ :: _) |- _ => inversion_clear H end;
    unfold is_byte;
    repeat first [ apply Forall_app; split | apply Forall_cons | apply Forall_nil ];
    try zlia.
  apply IH. assumption.
Qed.

Lemma base64ToArrayBuffer_bytes : forall s bs, base64ToArrayBuffer s = Some bs ->
  Forall is_byte bs.
Proof.
  intros s bs H. unfold base64ToArrayBuffer, atob in H. cbv zeta in H.
  destruct (_ =? 1)%nat; [discriminate|].
  destruct (map_option b64_index _) as [sx|] eqn:E; [|discriminate].
  injection H as <-. apply b64_decode_sextets_bytes.
  exact (map_option_b64_range _ _ E).
Qed.

(** X4 (readEncryptedPayload, decryptMessage): when the platform's AES decryption returns bytes, every plaintext returned by opening a payload is well-formed UTF-16 (no lone surrogates). *)
Theorem open_result_well_formed : forall P payload peerIdentity sharedKey t x,
  (forall k iv c pt, Forall is_byte c -> aes_decrypt P k iv c = Some pt ->
     Forall is_byte pt) ->
  readEncryptedPayload P payload peerIdentity sharedKey = (t, Ok x) ->
  wf_utf16 x = true.
Proof.
  intros P payload peer K t x Hdec H.
  unfold readEncryptedPayload, importPublicKey, verifySignature, decryptMessage,
    lift, bind, ret, throw, tell in H.
  destruct (base64ToArrayBuffer (em_encryptedData payload)) as [ed|] eqn:E1;
    [|discriminate H].
  destruct (base64ToArrayBuffer (em_signature payload)) as [sg|] eqn:E2;
    [|discriminate H].
  destruct (base64ToArrayBuffer (em_iv payload)) as [iv|] eqn:E3; [|discriminate H].
  destruct (import_public_jwk P (pi_publicKey peer)) as [pk|]; [|discriminate H].
  destruct (rsa_pss_verify P pk sg ed); cbn in H; [|discriminate H].
  destruct (aes_decrypt P K iv ed) as [pt|] eqn:E4; injection H as _ <-.
  - apply TextDecoder_decode_wf.
    exact (Hdec K iv ed pt (base64ToArrayBuffer_bytes _ _ E1) E4).
  - vm_compute. reflexivity.
Qed.

(** X5 (encryptMessage, decryptMessage): encoding a string as UTF-8 and decoding it again yields the string with lone surrogates replaced by U+FFFD and a leading BOM removed; the encoding is a list of bytes. *)
Theorem text_codec_composite : forall s, Forall (fun u => 0 <= u <= 0xFFFF) s ->
  TextDecoder_decode (TextEncoder_encode s) = strip_bom (toWellFormed s) /\
  Forall is_byte (TextEncoder_encode s).
Proof.
  intros s Hs. split; [|apply TextEncoder_encode_bytes; exact Hs].
  pose proof (utf16_scalars_scalar s Hs) as Hsc.
  unfold TextDecoder_decode, TextEncoder_encode, toWellFormed.
  rewrite utf8_decode_encode by exact Hsc.
  destruct (utf16_scalars s) as [|c r]; [reflexivity|].
  inversion_clear Hsc as [|? ? [Hc1 Hc2] _].
  cbn [flat_map]. unfold cp_to_utf16 at 2.
  destruct (Z.eqb_spec c 0xFEFF) as [->|Hne].
  - reflexivity.
  - destruct (Z.ltb_spec c 0x10000); cbn [app strip_bom];
      decide_zcmp; try reflexivity; cbn [flat_map]; unfold cp_to_utf16; decide_zcmp; try reflexivity; exfalso; zlia.
Qed.

(** X6 (createEncryptedPayload): with a usable private key, sealing always succeeds; the envelope carries the given id, the sender's userId and the timestamp, a 16-character base64 IV that decodes to the IV, a ciphertext that decodes to the AES encryption of the UTF-8 text, and a 344-character signature decoding to 256 bytes. *)
Theorem createEncryptedPayload_fields :
  forall P I K text iv salt uuid now priv,
    platform_ok P ->
    import_private_jwk P (privateKey I) = Some priv -> rsa_priv_ok priv ->
    Forall is_byte K -> Forall is_byte iv -> length iv = 12%nat ->
    length salt = 32%nat -> Forall is_byte salt ->
    Forall (fun u => 0 <= u <= 0xFFFF) text ->
    exists env sig,
      createEncryptedPayload P text I K iv salt uuid now = Ok env /\
      em_id env = uuid /\ em_senderId env = userId I /\ em_timestamp env = now /\
      length (em_iv env) = 16%nat /\ base64ToArrayBuffer (em_iv env) = Some iv /\
      base64ToArrayBuffer (em_encryptedData env)
        = Some (aes_encrypt P K iv (TextEncoder_encode text)) /\
      base64ToArrayBuffer (em_signature env) = Some sig /\
      length sig = 256%nat /\ length (em_signature env) = 344%nat.
Proof.
  intros P I K text iv salt uuid now priv HP Hpriv Hok HK Hiv Hivl Hl Hs Htext.
  set (ct := aes_encrypt P K iv (TextEncoder_encode text)).
  assert (Hct : Forall is_byte ct).
  { apply (aes_bytes P HP); [exact HK|exact Hiv|]. apply TextEncoder_encode_bytes; exact Htext. }
  destruct Hok as [Hn Hok]. unfold RSA_modulusLength in Hn. change (2048 - 1) with 2047 in Hn.
  destruct (RSASSA_PSS_SIGN_2048 (sha256 P) (sha_len P HP) (sha_bytes P HP) priv ct salt Hn Hl Hs)
    as [EM [_ [_ [_ [_ Hsig]]]]].
  set (sig := I2OSP (mod_pow (OS2IP EM) (priv_d priv) (priv_n priv)) 256) in Hsig.
  assert (Hsigb : Forall is_byte sig) by apply I2OSP_bytes.
  assert (Hsigl : length sig = 256%nat) by apply I2OSP_length.
  destruct (base64_roundtrip iv Hiv) as [Eiv Div].
  destruct (base64_roundtrip ct Hct) as [Ect Dct].
  destruct (base64_roundtrip sig Hsigb) as [Esig Dsig].
  unfold createEncryptedPayload. fold ct. rewrite Hpriv.
  unfold signData, SIGN_ALGORITHM_saltLength. rewrite Hsig, Eiv, Ect, Esig.
  exists {| em_id := uuid; em_senderId := userId I; em_iv := b64_encode iv;
            em_encryptedData := b64_encode ct; em_signature := b64_encode sig;
            em_timestamp := now |}, sig.
  cbn [em_id em_senderId em_iv em_encryptedData em_signature em_timestamp].
  rewrite !b64_encode_length, Hivl, Hsigl.
  repeat split; assumption || reflexivity.
Qed.

(** X7 (readEncryptedPayload): the id, senderId and timestamp of an envelope are never checked, and the IV is only used through its decoding; changing them (keeping a decodable IV) never makes a verified envelope fail the signature check. *)
Theorem open_ignores_unsigned_fields :
  forall P payload peerIdentity sharedKey id' senderId' iv' timestamp' v,
    base64ToArrayBuffer iv' = Some v ->
    let payload' := {| em_id := id'; em_senderId := senderId'; em_iv := iv';
                       em_encryptedData := em_encryptedData payload;
                       em_signature := em_signature payload;
                       em_timestamp := timestamp' |} in
    (base64ToArrayBuffer (em_iv payload) = Some v ->
       readEncryptedPayload P payload' peerIdentity sharedKey
       = readEncryptedPayload P payload peerIdentity sharedKey) /\
    (forall x, readEncryptedPayload P payload peerIdentity sharedKey
                 = ([EvVerify true; EvDecrypt], Ok x) ->
       exists y, readEncryptedPayload P payload' peerIdentity sharedKey
                 = ([EvVerify true; EvDecrypt], Ok y)).
Proof.
  intros P payload peer K id' sid' iv' ts' v Hv payload'. split.
  - intros Hv0. unfold readEncryptedPayload, payload'.
    cbn [em_iv em_encryptedData em_signature]. rewrite Hv, Hv0. reflexivity.
  - intros x H. unfold readEncryptedPayload, payload' in *.
    cbn [em_iv em_encryptedData em_signature] in *. rewrite Hv.
    unfold importPublicKey, verifySignature, decryptMessage,
      lift, bind, ret, throw, tell in *.
    destruct (base64ToArrayBuffer (em_encryptedData payload)) as [ed|];
      [|discriminate H].
    destruct (base64ToArrayBuffer (em_signature payload)) as [sg|]; [|discriminate H].
    destruct (base64ToArrayBuffer (em_iv payload)) as [iv|]; [|discriminate H].
    destruct (import_public_jwk P (pi_publicKey peer)) as [pk|]; [|discriminate H].
    destruct (rsa_pss_verify P pk sg ed); cbn in H |- *; [|discriminate H].
    destruct (aes_decrypt P K v ed); eexists; reflexivity.
Qed.


Lemma set_error_twice : forall e1 e2 s, set_error e2 (set_error e1 s) = set_error e2 s.
Proof. intros e1 e2 []. reflexivity. Qed.

Lemma field_truthy_get : forall v k x, js_get v k = Some x -> field_truthy v k = truthy x.
Proof. intros v k x H. unfold field_truthy. rewrite H. reflexivity. Qed.


(** X8 (handleAddPeer): input that does not parse, or whose parsed value lacks a userId or has a falsy userId, username, publicKey or publicKeyFingerprint, only sets the invalid-peer error. *)
Theorem handleAddPeer_invalid_payload : forall JSON_parse I s,
  (JSON_parse (peerInput s) = None \/
   exists v, JSON_parse (peerInput s) = Some v /\
     (js_get v (js "userId") = None \/ peer_fields_truthy v = false)) ->
  handleAddPeer JSON_parse I s = set_error invalid_peer_error s.
Proof.
  intros parse I s H. unfold handleAddPeer.
  change (peerInput (set_error [] s)) with (peerInput s).
  destruct H as [Hn|[v [Hv H]]].
  - rewrite Hn. apply set_error_twice.
  - rewrite Hv. destruct (js_get v (js "userId")) as [uid|] eqn:Eu;
      [|apply set_error_twice].
    destruct H as [H|H]; [discriminate H|].
    unfold peer_fields_truthy in H. rewrite (field_truthy_get _ _ _ Eu) in H.
    rewrite H. apply set_error_twice.
Qed.

Lemma strict_equals_string_false : forall uid u, uid <> JStr u ->
  strict_equals_string uid u = false.
Proof.
  intros [] u H; try reflexivity. cbn.
  destruct (list_eq_dec Z.eq_dec s u) as [->|]; [contradiction|reflexivity].
Qed.

(** X9 (handleAddPeer, deriveAndSetSharedKey): a parsed peer with the four fields truthy and a userId other than the user's own is stored, the input, messages and error are cleared, the stored AES key is removed, the current shared key is kept and one fresh key generation is started. *)
Theorem handleAddPeer_accepts : forall JSON_parse I s v uid,
  JSON_parse (peerInput s) = Some v -> js_get v (js "userId") = Some uid ->
  peer_fields_truthy v = true -> uid <> JStr (userId I) ->
  let s' := handleAddPeer JSON_parse I s in
  peer s' = Some v /\ peerInput s' = [] /\ messages s' = [] /\ chat_error s' = [] /\
  stored_aes_key s' = None /\ sharedKey s' = sharedKey s /\
  in_flight (runKeyEffect s') = in_flight s ++ [GenerateFresh (S (relationship s))].
Proof.
  intros parse I s v uid Hv Eu Hf Hne s'. unfold s', handleAddPeer.
  change (peerInput (set_error [] s)) with (peerInput s). rewrite Hv, Eu.
  unfold peer_fields_truthy in Hf. rewrite (field_truthy_get _ _ _ Eu) in Hf.
  rewrite Hf, (strict_equals_string_false _ _ Hne).
  repeat split; reflexivity.
Qed.

(** [drop_spaces] removes a prefix. *)
Lemma drop_spaces_suffix : forall l, exists p, l = p ++ drop_spaces l.
Proof.
  induction l as [|u l [p IH]]; [exists []; reflexivity|]. cbn.
  destruct (js_is_space u); [exists (u :: p); cbn; rewrite <- IH; reflexivity|].
  exists []. reflexivity.
Qed.

Lemma drop_spaces_head : forall l u r, drop_spaces l = u :: r -> js_is_space u = false.
Proof.
  induction l as [|x l IH]; intros u r H; [discriminate|]. cbn in H.
  destruct (js_is_space x) eqn:Ex; [exact (IH u r H)|]. injection H as <- _. exact Ex.
Qed.

Lemma trim_edges : forall s,
  (forall u r, trim s = u :: r -> js_is_space u = false) /\
  (forall l u, trim s = l ++ [u] -> js_is_space u = false).
Proof.
  intros s. unfold trim. split.
  - intros u r H. set (d := drop_spaces s) in *.
    destruct (drop_spaces_suffix (rev d)) as [p Hp].
    assert (Hd : d = rev (drop_spaces (rev d)) ++ rev p).
    { rewrite <- rev_app_distr, <- Hp, rev_involutive. reflexivity. }
    rewrite H in Hd. cbn [app] in Hd. exact (drop_spaces_head s u _ Hd).
  - intros l u H. apply (f_equal (@rev Z)) in H.
    rewrite rev_involutive, rev_app_distr in H. cbn in H.
    exact (drop_spaces_head _ u _ H).
Qed.

Lemma drop_spaces_idem : forall l, drop_spaces (drop_spaces l) = drop_spaces l.
Proof.
  induction l as [|u l IH]; [reflexivity|]. cbn.
  destruct (js_is_space u) eqn:E; [exact IH|]. cbn. rewrite E. reflexivity.
Qed.

(** X10 (handleSendMessage): a blank message, a missing peer or a missing shared key leaves the state unchanged; when createEncryptedPayload resolves, the trimmed text is appended as a local message with the payload's id and timestamp and the seal uses the current shared key; when it rejects (as it does when the private key does not import), a 'system' entry with the error sending message text is appended instead and nothing is sealed; peer and key are unchanged, and the trimmed text never starts or ends with whitespace. *)
Theorem handleSendMessage_seal_spec :
  forall P I err_message message iv salt uuid now errId errNow s,
  let s' := handleSendMessage_seal P I err_message message iv salt uuid now errId errNow s in
  (trim message = [] \/ peer s = None \/ sharedKey s = None -> s' = s) /\
  (forall k env, trim message <> [] -> peer s <> None -> sharedKey s = Some k ->
     createEncryptedPayload P (trim message) I k iv salt uuid now = Ok env ->
     messages s' = messages s ++
       [{| msg_id := uuid; msg_senderId := userId I; msg_text := trim message;
           msg_timestamp := now; msg_isLocalSender := true |}] /\
     sealed_with s' = (k, relationship s) :: sealed_with s /\
     peer s' = peer s /\ sharedKey s' = sharedKey s /\
     s' = handleSendMessage I message uuid now s) /\
  (forall k e, trim message <> [] -> peer s <> None -> sharedKey s = Some k ->
     createEncryptedPayload P (trim message) I k iv salt uuid now = Throw e ->
     messages s' = messages s ++
       [{| msg_id := errId; msg_senderId := js "system";
           msg_text := send_error_prefix ++ err_message e;
           msg_timestamp := errNow; msg_isLocalSender := true |}] /\
     sealed_with s' = sealed_with s /\
     peer s' = peer s /\ sharedKey s' = sharedKey s) /\
  (forall k, import_private_jwk P (privateKey I) = None ->
     createEncryptedPayload P (trim message) I k iv salt uuid now = Throw KeyImportError) /\
  (forall u r, trim message = u :: r -> js_is_space u = false) /\
  (forall l u, trim message = l ++ [u] -> js_is_space u = false).
Proof.
  intros P I err_message message iv salt uuid now errId errNow s s'.
  split; [|split; [|split; [|split; [|exact (trim_edges message)]]]].
  - unfold s', handleSendMessage_seal. intros [H|[H|H]]; rewrite H;
      [reflexivity| |]; destruct (trim message); [reflexivity| |reflexivity|];
      [reflexivity|destruct (peer s); reflexivity].
  - intros k env Hm Hp Hk Hc.
    assert (Hid : em_id env = uuid /\ em_timestamp env = now).
    { unfold createEncryptedPayload in Hc.
      repeat match type of Hc with
             | context [match ?x with Some _ => _ | None => _ end] => destruct x
             end; try discriminate Hc.
      injection Hc as <-. split; reflexivity. }
    destruct Hid as [Hid Hnow].
    unfold s', handleSendMessage_seal, handleSendMessage.
    destruct (trim message) as [|u r]; [contradiction|].
    destruct (peer s) as [p|]; [|contradiction]. rewrite Hk, Hc, Hid, Hnow.
    repeat split; reflexivity.
  - intros k e Hm Hp Hk Hc. unfold s', handleSendMessage_seal.
    destruct (trim message) as [|u r]; [contradiction|].
    destruct (peer s) as [p|]; [|contradiction]. rewrite Hk, Hc.
    repeat split; reflexivity.
  - intros k H. unfold createEncryptedPayload. rewrite H. reflexivity.
Qed.


Lemma handleAddPeer_cases : forall parse I s,
  (exists e, handleAddPeer parse I s = set_error e s) \/
  (exists v, handleAddPeer parse I s =
     {| peer := Some v; peerInput := []; messages := [];
        sharedKey := sharedKey s; stored_aes_key := None; chat_error := [];
        key_effect_due := true; in_flight := in_flight s;
        relationship := S (relationship s); generated := generated s;
        sealed_with := sealed_with s |}).
Proof.
  intros parse I s. unfold handleAddPeer.
  change (peerInput (set_error [] s)) with (peerInput s).
  destruct (parse (peerInput s)) as [v|];
    [|left; eexists; apply set_error_twice].
  destruct (js_get v (js "userId")) as [uid|]; [|left; eexists; apply set_error_twice].
  destruct (_ && _ && _ && _); [|left; eexists; apply set_error_twice].
  destruct (strict_equals_string uid (userId I)); [left; eexists; apply set_error_twice|].
  right. exists v. reflexivity.
Qed.

Lemma handleSendMessage_cases : forall I m u t s,
  handleSendMessage I m u t s = s \/
  exists k, sharedKey s = Some k /\
    handleSendMessage I m u t s =
    {| peer := peer s; peerInput := peerInput s;
       messages := messages s ++
         [{| msg_id := u; msg_senderId := userId I; msg_text := trim m;
             msg_timestamp := t; msg_isLocalSender := true |}];
       sharedKey := sharedKey s; stored_aes_key := stored_aes_key s;
       chat_error := chat_error s; key_effect_due := key_effect_due s;
       in_flight := in_flight s; relationship := relationship s;
       generated := generated s; sealed_with := (k, relationship s) :: sealed_with s |}.
Proof.
  intros I m u t s. unfold handleSendMessage.
  destruct (trim m); [left; reflexivity|].
  destruct (peer s); [|left; reflexivity].
  destruct (sharedKey s) as [k|] eqn:Ek; [|left; reflexivity].
  right. exists k. split; reflexivity.
Qed.

Lemma chat_step_keys_generated : forall parse I s ev s',
  keys_generated s -> chat_step parse I s ev = Some s' -> keys_generated s'.
Proof.
  intros parse I s ev s' Hs Hst. destruct Hs as [H1 [H2 [H3 H4]]].
  destruct ev as [v| | | |fresh|m u t]; cbn [chat_step] in Hst.
  - destruct (peer s); injection Hst as <- || discriminate Hst.
    repeat split; assumption.
  - destruct (peer s), (peerInput s); try discriminate Hst. injection Hst as <-.
    destruct (handleAddPeer_cases parse I s) as [[e ->]|[v ->]];
      repeat split; cbn; try assumption; discriminate.
  - destruct (peer s); try discriminate Hst. injection Hst as <-.
    repeat split; assumption.
  - destruct (key_effect_due s); try discriminate Hst. injection Hst as <-.
    unfold runKeyEffect. repeat split; cbn [generated sharedKey stored_aes_key sealed_with in_flight];
      try assumption.
    intros k Hk. destruct (peer s); [|exact (H4 k Hk)].
    destruct (stored_aes_key s) as [jw|] eqn:Ej; apply in_app_or in Hk;
      (destruct Hk as [Hk|[Hk|[]]]; [exact (H4 k Hk)|]); try discriminate Hk.
    injection Hk as ->. first [exact (H2 k Ej) | exact (H2 k eq_refl)].
  - unfold resolveKey in Hst. destruct (in_flight s) as [|[j|r] rest] eqn:Ej;
      try discriminate Hst; injection Hst as <-;
      repeat split; cbn [generated sharedKey stored_aes_key sealed_with in_flight map fst].
    + intros k Hk. injection Hk as <-. apply H4. try rewrite Ej. left; reflexivity.
    + exact H2.
    + exact H3.
    + intros k Hk. apply H4. try rewrite Ej. right; exact Hk.
    + intros k Hk. injection Hk as <-. left; reflexivity.
    + intros k Hk. injection Hk as <-. left; reflexivity.
    + intros k r' Hk. right. exact (H3 k r' Hk).
    + intros k Hk. right. apply H4. try rewrite Ej. right; exact Hk.
  - destruct (peer s); try discriminate Hst. injection Hst as <-.
    destruct (handleSendMessage_cases I m u t s) as [->|[k0 [Ek ->]]];
      [repeat split; assumption|].
    repeat split; cbn [generated sharedKey stored_aes_key sealed_with in_flight];
      try assumption.
    intros k r [Hk|Hk]; [injection Hk as <- _; exact (H1 k0 Ek)|exact (H3 k r Hk)].
Qed.

(** X11 (deriveAndSetSharedKey, handleSendMessage): in every run from the initial state, the shared key, the stored AES key and every key a message was sealed with come from a key generation of the session. *)
Theorem session_keys_generated : forall JSON_parse I evs s,
  chat_run JSON_parse I chat_init evs = Some s ->
  (forall k, sharedKey s = Some k -> In k (map fst (generated s))) /\
  (forall k, stored_aes_key s = Some k -> In k (map fst (generated s))) /\
  (forall k r, In (k, r) (sealed_with s) -> In k (map fst (generated s))).
Proof.
  intros parse I evs s H.
  assert (Hinv : keys_generated s).
  { assert (H0 : keys_generated chat_init)
      by (repeat split; cbn; intros; try discriminate; contradiction).
    revert H0 H. generalize chat_init as s0.
    induction evs as [|ev evs IH]; intros s0 H0 H; cbn in H.
    - injection H as <-. exact H0.
    - destruct (chat_step parse I s0 ev) as [s1|] eqn:E; [|discriminate H].
      exact (IH s1 (chat_step_keys_generated parse I s0 ev s1 H0 E) H). }
  destruct Hinv as [H1 [H2 [H3 _]]]. auto.
Qed.

Lemma chat_step_keeps_key : forall parse I s ev s',
  sharedKey s <> None -> chat_step parse I s ev = Some s' -> sharedKey s' <> None.
Proof.
  intros parse I s ev s' Hk Hst.
  destruct ev as [v| | | |fresh|m u t]; cbn [chat_step] in Hst.
  - destruct (peer s); try discriminate Hst. injection Hst as <-. exact Hk.
  - destruct (peer s), (peerInput s); try discriminate Hst. injection Hst as <-.
    destruct (handleAddPeer_cases parse I s) as [[e ->]|[v ->]]; exact Hk.
  - destruct (peer s); try discriminate Hst. injection Hst as <-. exact Hk.
  - destruct (key_effect_due s); try discriminate Hst. injection Hst as <-. exact Hk.
  - unfold resolveKey in Hst. destruct (in_flight s) as [|[j|r] rest];
      try discriminate Hst; injection Hst as <-; discriminate.
  - destruct (peer s); try discriminate Hst. injection Hst as <-.
    destruct (handleSendMessage_cases I m u t s) as [->|[k0 [_ ->]]]; exact Hk.
Qed.

(** X12 (ChatInterface): once a shared key is set, no sequence of events (disconnecting or connecting a new peer included) clears it. *)
Theorem sharedKey_never_cleared : forall JSON_parse I evs s s',
  sharedKey s <> None -> chat_run JSON_parse I s evs = Some s' -> sharedKey s' <> None.
Proof.
  intros parse I evs. induction evs as [|ev evs IH]; intros s s' Hk H; cbn in H.
  - injection H as <-. exact Hk.
  - destruct (chat_step parse I s ev) as [s1|] eqn:E; [|discriminate H].
    exact (IH s1 s' (chat_step_keeps_key parse I s ev s1 Hk E) H).
Qed.


(** X13 (handleCreateIdentity): a blank username only sets the username error; a failed key generation sets the key-generation error and stops loading; otherwise the created identity carries the fresh userId, the untrimmed username, the key pair and the SHA-256 fingerprint of the public key. *)
Theorem handleCreateIdentity_spec : forall P keys uuid s,
  let s' := handleCreateIdentity P keys uuid s in
  (trim (su_username s) = [] ->
     su_error s' = empty_username_error /\ su_created s' = su_created s /\
     su_isLoading s' = su_isLoading s) /\
  (trim (su_username s) <> [] -> keys = None ->
     su_error s' = keygen_error /\ su_created s' = su_created s /\
     su_isLoading s' = false) /\
  (forall pub priv, trim (su_username s) <> [] -> keys = Some (pub, priv) ->
     (forall x, Forall is_byte (sha256 P x)) ->
     su_error s' = [] /\
     su_created s' = Some {| userId := uuid; username := su_username s;
                             publicKey := pub; privateKey := priv;
                             publicKeyFingerprint := fingerprint_spec P pub |}).
Proof.
  intros P keys uuid s s'. unfold s', handleCreateIdentity.
  split; [|split].
  - intros ->. repeat split.
  - intros Hn ->. destruct (trim (su_username s)); [contradiction|]. repeat split.
  - intros pub priv Hn -> Hsha. destruct (trim (su_username s)); [contradiction|].
    assert (Hfp : generatePublicKeyFingerprint P pub = fingerprint_spec P pub).
    { unfold generatePublicKeyFingerprint, fingerprint_spec, fingerprint_digest.
      change 16%nat with (2 * 8)%nat. apply fingerprint_prefix. apply Hsha. }
    cbn [su_created su_error]. rewrite Hfp. split; reflexivity.
Qed.

Lemma key_eqb_spec : forall a b, key_eqb a b = true <-> a = b.
Proof.
  intros a b. unfold key_eqb. destruct (list_eq_dec Z.eq_dec a b); split;
    congruence.
Qed.

Lemma getItem_remove_same : forall k st, getItem k (removeItem k st) = None.
Proof.
  intros k st. induction st as [|[k' v] st IH]; [reflexivity|].
  unfold removeItem in *. cbn [filter fst].
  destruct (key_eqb k' k) eqn:E; cbn [negb]; [exact IH|].
  unfold getItem in *. cbn [find fst]. rewrite E. exact IH.
Qed.

Lemma getItem_remove_other : forall k k' st, k <> k' ->
  getItem k (removeItem k' st) = getItem k st.
Proof.
  intros k k' st Hne. induction st as [|[k0 v] st IH]; [reflexivity|].
  unfold removeItem in *. cbn [filter fst].
  destruct (key_eqb k0 k') eqn:E; cbn [negb].
  - apply key_eqb_spec in E. subst k0. rewrite IH. unfold getItem. cbn [find fst].
    replace (key_eqb k' k) with false; [reflexivity|].
    symmetry. apply not_true_iff_false. rewrite key_eqb_spec. congruence.
  - unfold getItem in *. cbn [find fst]. destruct (key_eqb k0 k); [reflexivity|].
    exact IH.
Qed.

Lemma getItem_set_same : forall k v st, getItem k (setItem k v st) = Some v.
Proof.
  intros k v st. unfold getItem, setItem. cbn [find fst snd].
  replace (key_eqb k k) with true by (symmetry; apply key_eqb_spec; reflexivity).
  reflexivity.
Qed.

Lemma getItem_set_other : forall k k' v st, k <> k' ->
  getItem k (setItem k' v st) = getItem k (removeItem k' st).
Proof.
  intros k k' v st Hne. unfold getItem at 1, setItem. cbn [find fst].
  replace (key_eqb k' k) with false; [reflexivity|].
  symmetry. apply not_true_iff_false. rewrite key_eqb_spec. congruence.
Qed.

(** X14 (handleLogout): without confirmation the storage is unchanged; with confirmation the user identity is set to null, the peer identity and the chat messages are removed, and every other key is left as it was. *)
Theorem handleLogout_spec : forall confirmed st,
  (confirmed = false -> handleLogout confirmed st = st) /\
  (confirmed = true ->
     getItem (js "user-identity") (handleLogout confirmed st) = Some (js "null") /\
     getItem (js "peer-identity") (handleLogout confirmed st) = None /\
     getItem (js "chat-messages") (handleLogout confirmed st) = None /\
     forall k, k <> js "user-identity" -> k <> js "peer-identity" ->
       k <> js "chat-messages" -> getItem k (handleLogout confirmed st) = getItem k st).
Proof.
  intros confirmed st. split; intros ->; [reflexivity|]. unfold handleLogout. cbv beta iota.
  split; [apply getItem_set_same|].
  split; [rewrite getItem_set_other by discriminate;
          rewrite (getItem_remove_other _ (js "user-identity")) by discriminate;
          rewrite (getItem_remove_other _ (js "chat-messages")) by discriminate;
          apply getItem_remove_same|].
  split; [rewrite getItem_set_other by discriminate;
          rewrite (getItem_remove_other _ (js "user-identity")) by discriminate;
          apply getItem_remove_same|].
  intros k H1 H2 H3. rewrite getItem_set_other by exact H1.
  rewrite !getItem_remove_other by assumption. reflexivity.
Qed.



(** X15 (getPublicIdentity, QR payload, handleAddPeer): the JSON of another user's public identity, when it parses back to itself and has non-empty fields, is accepted by handleAddPeer as the new peer, and it carries no privateKey field. *)
Theorem public_identity_payload_accepted : forall P JSON_parse A B s,
  let payload := publicIdentity_json (getPublicIdentity A) in
  JSON_parse (json_stringify P payload) = Some payload ->
  userId A <> [] -> username A <> [] -> truthy (publicKey A) = true ->
  publicKeyFingerprint A <> [] -> userId A <> userId B ->
  let s' := handleAddPeer JSON_parse B (set_peer_input (json_stringify P payload) s) in
  peer s' = Some payload /\ messages s' = [] /\ chat_error s' = [] /\
  stored_aes_key s' = None /\
  js_get payload (js "privateKey") = Some JUndefined.
Proof.
  intros P parse A B s payload Hp Hu Hn Hk Hf Hne s'.
  unfold s', handleAddPeer.
  change (peerInput (set_error [] (set_peer_input (json_stringify P payload) s)))
    with (json_stringify P payload).
  rewrite Hp. unfold payload, publicIdentity_json, getPublicIdentity, field_truthy.
  cbn [pi_userId pi_username pi_publicKey pi_publicKeyFingerprint].
  cbn [js_get find fst snd].
  destruct (userId A) as [|u ur] eqn:EA; [contradiction|].
  destruct (username A) as [|n nr]; [contradiction|].
  destruct (publicKeyFingerprint A) as [|f fr]; [contradiction|].
  remember strict_equals_string as SE eqn:HSE. simpl. rewrite Hk. cbn [andb].
  subst SE. rewrite strict_equals_string_false by congruence.
  repeat split.
Qed.

(** Witness of X2: whitespace inside 'AQ ID' is skipped and [1;2;3;4] decodes without padding. *)
Lemma atob_forgiving_witness :
  base64ToArrayBuffer (js "AQ ID") = base64ToArrayBuffer (js "AQID") /\
  base64ToArrayBuffer (filter (fun c => negb (c =? 61)) (b64_encode [1; 2; 3; 4]))
    = Some [1; 2; 3; 4].
Proof.
  split.
  - apply (proj1 (atob_forgiving [1; 2; 3; 4] ltac:(apply is_byteb_Forall; reflexivity))
             (js "AQ") (js "ID") 32). reflexivity.
  - apply (proj2 (atob_forgiving [1; 2; 3; 4] ltac:(apply is_byteb_Forall; reflexivity))).
Defined.

(** Witness of X3: 'QU*B' and 'QUJDR' are rejected. *)
Lemma atob_rejects_witness :
  base64ToArrayBuffer (js "QU*B") = None /\ base64ToArrayBuffer (js "QUJDR") = None.
Proof.
  split.
  - apply (proj1 (atob_rejects (js "QU*B")) 42); [cbn; auto | reflexivity | discriminate | reflexivity].
  - apply (proj2 (atob_rejects (js "QUJDR"))). reflexivity.
Defined.

(** The toy platform's decryption returns a suffix of its input. *)
Lemma toy_decrypt_bytes : forall k iv c pt, Forall is_byte c ->
  aes_decrypt toy_platform k iv c = Some pt -> Forall is_byte pt.
Proof.
  intros k iv c pt Hc H. cbn [aes_decrypt toy_platform] in H.
  destruct (list_eq_dec _ _ _); [|discriminate H]. injection H as <-.
  rewrite <- (firstn_skipn (length (k ++ iv)) c) in Hc.
  apply Forall_app in Hc. apply Hc.
Qed.

(** Witness of X4: an envelope whose plaintext ends in an encoded lone surrogate opens to replacement characters only. *)
Lemma open_result_well_formed_witness :
  readEncryptedPayload toy_platform surrogate_envelope (getPublicIdentity alice) key1
    = ([EvVerify true; EvDecrypt], Ok [0xFFFD; 0xFFFD; 0xFFFD]) /\
  wf_utf16 [0xFFFD; 0xFFFD; 0xFFFD] = true.
Proof.
  split; [vm_compute; reflexivity|].
  apply (open_result_well_formed toy_platform surrogate_envelope (getPublicIdentity alice)
           key1 [EvVerify true; EvDecrypt] [0xFFFD; 0xFFFD; 0xFFFD] toy_decrypt_bytes).
  vm_compute. reflexivity.
Defined.

(** Witness of X5: a BOM, a lone surrogate and 'A'. *)
Lemma text_codec_composite_witness :
  TextDecoder_decode (TextEncoder_encode [0xFEFF; 0xD800; 0x41])
    = strip_bom (toWellFormed [0xFEFF; 0xD800; 0x41]) /\
  Forall is_byte (TextEncoder_encode [0xFEFF; 0xD800; 0x41]) /\
  strip_bom (toWellFormed [0xFEFF; 0xD800; 0x41]) = [0xFFFD; 0x41].
Proof.
  destruct (text_codec_composite [0xFEFF; 0xD800; 0x41]) as [H1 H2].
  - repeat constructor; lia.
  - split; [exact H1|]. split; [exact H2|]. vm_compute. reflexivity.
Defined.

(** Witness of X6 on the toy platform. *)
Lemma createEncryptedPayload_fields_witness :
  exists env sig,
    createEncryptedPayload toy_platform (js "hi") alice key1 iv12 salt_a (js "m-1") 7
      = Ok env /\
    em_id env = js "m-1" /\ em_senderId env = userId alice /\ em_timestamp env = 7 /\
    length (em_iv env) = 16%nat /\ base64ToArrayBuffer (em_iv env) = Some iv12 /\
    base64ToArrayBuffer (em_encryptedData env)
      = Some (aes_encrypt toy_platform key1 iv12 (TextEncoder_encode (js "hi"))) /\
    base64ToArrayBuffer (em_signature env) = Some sig /\
    length sig = 256%nat /\ length (em_signature env) = 344%nat.
Proof.
  apply (createEncryptedPayload_fields toy_platform alice key1 (js "hi") iv12 salt_a
           (js "m-1") 7 toy_priv toy_platform_ok eq_refl toy_priv_ok);
    first [ reflexivity | (apply is_byteb_Forall; vm_compute; reflexivity)
          | (repeat constructor; vm_compute; intro; discriminate) ].
Defined.

(** Witness of X7: a forged id, sender, timestamp and IV encoding. *)
Lemma open_ignores_unsigned_fields_witness :
  let payload' := {| em_id := js "forged"; em_senderId := js "mallory-id";
                     em_iv := js "BwcHBwcHBwcHBwcH";
                     em_encryptedData := em_encryptedData surrogate_envelope;
                     em_signature := em_signature surrogate_envelope;
                     em_timestamp := 99 |} in
  readEncryptedPayload toy_platform payload' (getPublicIdentity alice) key1
  = readEncryptedPayload toy_platform surrogate_envelope (getPublicIdentity alice) key1.
Proof.
  apply (proj1 (open_ignores_unsigned_fields toy_platform surrogate_envelope
                  (getPublicIdentity alice) key1 (js "forged") (js "mallory-id")
                  (js "BwcHBwcHBwcHBwcH") 99 iv12 ltac:(vm_compute; reflexivity))).
  vm_compute. reflexivity.
Defined.

(** Witness of X8: unparsable peer input. *)
Lemma handleAddPeer_invalid_payload_witness :
  handleAddPeer table_parse alice (set_peer_input (js "{not json") chat_init)
  = set_error invalid_peer_error (set_peer_input (js "{not json") chat_init).
Proof.
  apply handleAddPeer_invalid_payload. left. vm_compute. reflexivity.
Defined.

(** Witness of X9: Alice adds Bob. *)
Lemma handleAddPeer_accepts_witness :
  let s' := handleAddPeer table_parse alice (set_peer_input bob_input chat_init) in
  peer s' = Some (peer_obj "bob-id" "Bob") /\ peerInput s' = [] /\ messages s' = [] /\
  chat_error s' = [] /\ stored_aes_key s' = None /\ sharedKey s' = None /\
  in_flight (runKeyEffect s') = [GenerateFresh 1].
Proof.
  apply (handleAddPeer_accepts table_parse alice (set_peer_input bob_input chat_init)
           (peer_obj "bob-id" "Bob") (JStr (js "bob-id")));
    [vm_compute; reflexivity | vm_compute; reflexivity | vm_compute; reflexivity |].
  intros H. vm_compute in H. discriminate H.
Defined.

(** Witness of X11 on a run that resolves a stale key. *)
Lemma session_keys_generated_witness :
  match chat_run table_parse alice chat_init stale_key_trace with
  | Some s =>
    (forall k, sharedKey s = Some k -> In k (map fst (generated s))) /\
    (forall k, stored_aes_key s = Some k -> In k (map fst (generated s))) /\
    (forall k r, In (k, r) (sealed_with s) -> In k (map fst (generated s)))
  | None => False
  end.
Proof.
  destruct (chat_run table_parse alice chat_init stale_key_trace) as [s|] eqn:E.
  - exact (session_keys_generated table_parse alice stale_key_trace s E).
  - vm_compute in E. discriminate E.
Defined.

(** Witness of X12: disconnecting and connecting another peer keeps the key. *)
Lemma sharedKey_never_cleared_witness :
  match chat_run table_parse alice chat_init
          [TypePeerInput bob_input; ConnectToPeer; RunKeyEffect; ResolveKey keyA] with
  | Some s =>
    match chat_run table_parse alice s
            [Disconnect; RunKeyEffect; TypePeerInput carol_input; ConnectToPeer;
             RunKeyEffect] with
    | Some s' => sharedKey s' <> None
    | None => False
    end
  | None => False
  end.
Proof.
  destruct (chat_run table_parse alice chat_init _) as [s|] eqn:E1;
    [|vm_compute in E1; discriminate E1].
  destruct (chat_run table_parse alice s _) as [s'|] eqn:E2.
  - apply (sharedKey_never_cleared table_parse alice
             [Disconnect; RunKeyEffect; TypePeerInput carol_input; ConnectToPeer;
              RunKeyEffect] s s'); [|exact E2].
    vm_compute in E1. injection E1 as <-. discriminate.
  - vm_compute in E1. injection E1 as <-. vm_compute in E2. discriminate E2.
Defined.

(** Witness of X13: the username ' Alice ' is kept untrimmed. *)
Lemma handleCreateIdentity_spec_witness :
  let s := {| su_username := js " Alice "; su_isLoading := false; su_error := [];
              su_created := None |} in
  su_created (handleCreateIdentity toy_platform
                (Some (JObj [], JObj [(js "d", JStr (js "AQ"))])) (js "u-1") s)
  = Some {| userId := js "u-1"; username := js " Alice "; publicKey := JObj [];
            privateKey := JObj [(js "d", JStr (js "AQ"))];
            publicKeyFingerprint := fingerprint_spec toy_platform (JObj []) |}.
Proof.
  apply (proj2 (proj2 (handleCreateIdentity_spec toy_platform
     (Some (JObj [], JObj [(js "d", JStr (js "AQ"))])) (js "u-1")
     {| su_username := js " Alice "; su_isLoading := false; su_error := [];
        su_created := None |}))
     (JObj []) (JObj [(js "d", JStr (js "AQ"))]));
    [vm_compute; discriminate | reflexivity | exact (sha_bytes _ toy_platform_ok)].
Defined.

(** Witness of X14: the stored AES key survives a logout. *)
Lemma handleLogout_spec_witness :
  let st := [(js "user-identity", js "{}"); (js "shared-aes-key", js "{'k':'AA'}");
             (js "chat-messages", js "[]")] in
  getItem (js "shared-aes-key") (handleLogout true st) = Some (js "{'k':'AA'}") /\
  getItem (js "chat-messages") (handleLogout true st) = None.
Proof.
  destruct (proj2 (handleLogout_spec true
     [(js "user-identity", js "{}"); (js "shared-aes-key", js "{'k':'AA'}");
      (js "chat-messages", js "[]")]) eq_refl) as [_ [_ [H3 H4]]].
  split; [|exact H3].
  apply H4; discriminate.
Defined.

(** Witness of X15: Bob adds Alice's card. *)
Lemma public_identity_payload_accepted_witness :
  let payload := publicIdentity_json (getPublicIdentity alice) in
  let s' := handleAddPeer alice_card_parse bob_identity
              (set_peer_input (json_stringify toy_platform payload) chat_init) in
  peer s' = Some payload /\ messages s' = [] /\ chat_error s' = [] /\
  stored_aes_key s' = None /\ js_get payload (js "privateKey") = Some JUndefined.
Proof.
  apply (public_identity_payload_accepted toy_platform alice_card_parse alice
           bob_identity chat_init);
    try (vm_compute; reflexivity); vm_compute; discriminate.
Defined.

(** Witness of X10: once a key is set, sending ' hi ' is echoed on the toy
    platform and gives the error entry when the private key does not import. *)
Lemma handleSendMessage_seal_spec_witness :
  match chat_run table_parse alice chat_init
          [TypePeerInput bob_input; ConnectToPeer; RunKeyEffect; ResolveKey keyA] with
  | Some s =>
    handleSendMessage_seal toy_platform alice (fun _ => js "DataError") (js " hi ")
      iv12 salt_a (js "m-2") 5 (js "e-1") 6 s
    = handleSendMessage alice (js " hi ") (js "m-2") 5 s /\
    messages (handleSendMessage_seal noimport_platform alice (fun _ => js "DataError")
                (js " hi ") iv12 salt_a (js "m-2") 5 (js "e-1") 6 s)
    = messages s ++
      [{| msg_id := js "e-1"; msg_senderId := js "system";
          msg_text := send_error_prefix ++ js "DataError";
          msg_timestamp := 6; msg_isLocalSender := true |}]
  | None => False
  end.
Proof.
  destruct (chat_run table_parse alice chat_init _) as [s|] eqn:E;
    [|vm_compute in E; discriminate E].
  assert (Hp : peer s <> None) by (vm_compute in E; injection E as <-; discriminate).
  assert (Hk : sharedKey s = Some keyA) by (vm_compute in E; injection E as <-; reflexivity).
  assert (Hm : trim (js " hi ") <> []) by (vm_compute; discriminate).
  split.
  - destruct (createEncryptedPayload toy_platform (trim (js " hi ")) alice keyA iv12 salt_a
                (js "m-2") 5) as [env|e] eqn:Ec; [|vm_compute in Ec; discriminate Ec].
    apply (proj2 (proj2 (proj2 (proj2 (proj1 (proj2 (handleSendMessage_seal_spec
             toy_platform alice (fun _ => js "DataError") (js " hi ") iv12 salt_a
             (js "m-2") 5 (js "e-1") 6 s)) keyA env Hm Hp Hk Ec))))).
  - destruct (handleSendMessage_seal_spec noimport_platform alice
             (fun _ => js "DataError") (js " hi ") iv12 salt_a (js "m-2") 5 (js "e-1") 6 s)
      as [_ [_ [Herr [Himp _]]]].
    exact (proj1 (Herr keyA KeyImportError Hm Hp Hk (Himp keyA eq_refl))).
Defined.
